(** * The search core of clarifai-python: schema validator and query builder

    A shallow embedding of [clarifai/schema/search.py] (the rank/filter
    schema) and of [clarifai/client/search.py] (the [Search] session, the
    annotation builder, [query] and the pagination generator), with the
    properties the specification states about them.

    The values handed to the validator are loosely typed Python objects; they
    are modelled by [pyval].  The rules of the [schema] package that the
    source relies on ([Schema], [And], [Optional], [Regex]) and the fragment
    of [re] used by the two patterns are written out as Rocq functions. *)

From Stdlib Require Import List String Ascii ZArith Bool Lia PeanoNat Permutation Floats.
Import ListNotations.
Local Open Scope string_scope.
Local Open Scope list_scope.
Set Warnings "-register-all".

(** ** Python values *)

Module Py.

(** The loosely typed input of the validator.  A [dict] keeps its entries in
    insertion order; only string keys occur (the items end up as keyword
    arguments).  The entry list of a dictionary has no repeated key. *)
Inductive pyval : Type :=
| VNone
| VBool (b : bool)
| VInt (n : Z)
| VFloat (x : float)
| VStr (s : string)
| VBytes (b : list ascii)
| VList (l : list pyval)
| VDict (d : list (string * pyval)).

(** The builtin types named by the schema. *)
Inductive pytype : Type := Tint | Tfloat | Tstr | Tbytes | Tlist | Tdict | Tbool.

(** [isinstance(data, t)]: [bool] is a subclass of [int]. *)
Definition isinstance (data : pyval) (t : pytype) : bool :=
  match t, data with
  | Tint, VInt _ | Tint, VBool _ => true
  | Tbool, VBool _ => true
  | Tfloat, VFloat _ => true
  | Tstr, VStr _ => true
  | Tbytes, VBytes _ => true
  | Tlist, VList _ => true
  | Tdict, VDict _ => true
  | _, _ => false
  end.

Definition pytype_eqb (a b : pytype) : bool :=
  match a, b with
  | Tint, Tint | Tfloat, Tfloat | Tstr, Tstr | Tbytes, Tbytes
  | Tlist, Tlist | Tdict, Tdict | Tbool, Tbool => true
  | _, _ => false
  end.

(** [len(x)] of a sized object; [None] stands for the [TypeError] of an
    object without length. *)
Definition len (x : pyval) : option nat :=
  match x with
  | VStr s => Some (String.length s)
  | VBytes b => Some (List.length b)
  | VList l => Some (List.length l)
  | VDict d => Some (List.length d)
  | _ => None
  end.

(** Dictionary operations on the entry list. *)
Definition keys (d : list (string * pyval)) : list string := map fst d.

Fixpoint dict_get (k : string) (d : list (string * pyval)) : option pyval :=
  match d with
  | [] => None
  | (k', v) :: d' => if String.eqb k k' then Some v else dict_get k d'
  end.

(** [d[k] = v]: replaces the value of an existing key in place, appends a
    new key at the end. *)
Fixpoint dict_set (k : string) (v : pyval) (d : list (string * pyval))
  : list (string * pyval) :=
  match d with
  | [] => [(k, v)]
  | (k', v') :: d' =>
      if String.eqb k k' then (k, v) :: d' else (k', v') :: dict_set k v d'
  end.

Definition mem_str (k : string) (l : list string) : bool :=
  existsb (String.eqb k) l.

End Py.

Export Py.

(** ** The fragment of [re] used by the schema *)

Module Re.

(** Regular expressions over characters, without anchors. *)
Inductive regex : Type :=
| Void
| Eps
| Chr (p : ascii -> bool)
| Cat (r1 r2 : regex)
| Alt (r1 r2 : regex)
| Star (r : regex).

Definition Plus (r : regex) : regex := Cat r (Star r).
Definition Opt (r : regex) : regex := Alt r Eps.

Fixpoint Lit (s : list ascii) : regex :=
  match s with
  | [] => Eps
  | c :: s' => Cat (Chr (Ascii.eqb c)) (Lit s')
  end.

(** A character range [lo-hi] of a bracket expression. *)
Definition in_range (lo hi c : ascii) : bool :=
  (nat_of_ascii lo <=? nat_of_ascii c)%nat && (nat_of_ascii c <=? nat_of_ascii hi)%nat.

(** The language of a regular expression. *)
Inductive matches : regex -> list ascii -> Prop :=
| MEps : matches Eps []
| MChr p c : p c = true -> matches (Chr p) [c]
| MCat r1 r2 s1 s2 :
    matches r1 s1 -> matches r2 s2 -> matches (Cat r1 r2) (s1 ++ s2)
| MAltL r1 r2 s : matches r1 s -> matches (Alt r1 r2) s
| MAltR r1 r2 s : matches r2 s -> matches (Alt r1 r2) s
| MStarNil r : matches (Star r) []
| MStarApp r s1 s2 :
    matches r s1 -> matches (Star r) s2 -> matches (Star r) (s1 ++ s2).

(** Matching by derivatives. *)
Fixpoint nullable (r : regex) : bool :=
  match r with
  | Void => false
  | Eps => true
  | Chr _ => false
  | Cat r1 r2 => nullable r1 && nullable r2
  | Alt r1 r2 => nullable r1 || nullable r2
  | Star _ => true
  end.

Fixpoint deriv (c : ascii) (r : regex) : regex :=
  match r with
  | Void => Void
  | Eps => Void
  | Chr p => if p c then Eps else Void
  | Cat r1 r2 =>
      if nullable r1
      then Alt (Cat (deriv c r1) r2) (deriv c r2)
      else Cat (deriv c r1) r2
  | Alt r1 r2 => Alt (deriv c r1) (deriv c r2)
  | Star r1 => Cat (deriv c r1) (Star r1)
  end.

(** A compiled pattern: the body and whether it is anchored by [^] in front
    and by [$] behind.  Neither pattern of the schema sets [re.MULTILINE]. *)
Record pattern : Type := Pattern {
  anchored_start : bool;
  body : regex;
  anchored_end : bool
}.

(** Where [$] holds: at the end of the string, or just before a newline that
    is the last character of the string. *)
Definition newline : ascii := "010"%char.

Definition at_dollar (rest : list ascii) : bool :=
  match rest with
  | [] => true
  | [c] => Ascii.eqb c newline
  | _ => false
  end.

Definition end_ok (p : pattern) (rest : list ascii) : bool :=
  if anchored_end p then at_dollar rest else true.

(** Does a match of [r] begin at the head of [s]? *)
Fixpoint match_here (fin : list ascii -> bool) (r : regex) (s : list ascii) : bool :=
  (nullable r && fin s) ||
  match s with
  | [] => false
  | c :: s' => match_here fin (deriv c r) s'
  end.

(** Does a match of [r] begin at some position of [s]? *)
Fixpoint match_anywhere (fin : list ascii -> bool) (r : regex) (s : list ascii) : bool :=
  match_here fin r s ||
  match s with
  | [] => false
  | _ :: s' => match_anywhere fin r s'
  end.

(** [pattern.search(s)], as a truth value. *)
Definition search (p : pattern) (s : string) : bool :=
  let cs := list_ascii_of_string s in
  if anchored_start p
  then match_here (end_ok p) (body p) cs
  else match_anywhere (end_ok p) (body p) cs.

End Re.

Export Re.

(** ** The rules of the [schema] package

    The source builds its schema from [Schema], [And], [Optional] and
    [Regex] of the third-party [schema] package (0.7 series).  Each flavour
    of schema that occurs is a combinator here, with the checks and the
    order of [Schema.validate]. *)

Module SchemaLib.

(** What a failed validation reports: the exception class and the parts its
    message is built from. *)
Inductive SchemaError : Type :=
| UnexpectedType (data : pyval) (expected : pytype)
    (* SchemaUnexpectedTypeError: "data should be instance of t" *)
| MissingKey (missing : list string)
    (* SchemaMissingKeyError: "Missing key(s): ..." *)
| WrongKey (wrong : list string) (data : pyval)
    (* SchemaWrongKeyError: "Wrong key(s) ... in data" *)
| KeyError (key : string) (cause : SchemaError)
    (* SchemaError: "Key 'key' error:" followed by the cause *)
| ShouldEvaluateToTrue (data : pyval)
    (* SchemaError: "f(data) should evaluate to True" *)
| CallableRaised (data : pyval)
    (* SchemaError: "f(data) raised ..." *)
| DoesNotMatch (data : pyval)
    (* SchemaError: "Regex(...) does not match data" *)
| NotStringNorBuffer (data : pyval)
    (* SchemaError: "data is not string nor buffer" *)
| DidNotValidate (data : pyval) (causes : list SchemaError).
    (* SchemaError: "Or(...) did not validate data" *)

Inductive result (E A : Type) : Type :=
| Ok (a : A)
| Raise (e : E).
Arguments Ok {E A} a.
Arguments Raise {E A} e.

(** [Schema(s).validate]: the validated data, or a [SchemaError]. *)
Definition validator : Type := pyval -> result SchemaError pyval.

(** [Schema.is_valid]: [validate] with the [SchemaError] caught. *)
Definition is_valid (s : validator) (data : pyval) : bool :=
  match s data with
  | Ok _ => true
  | Raise _ => false
  end.

(** A type as schema: [isinstance], with a [bool] refused where [int] is
    asked for. *)
Definition Type_ (t : pytype) : validator := fun data =>
  if isinstance data t && negb (isinstance data Tbool && pytype_eqb t Tint)
  then Ok data
  else Raise (UnexpectedType data t).

(** A callable as schema.  The callable is given by the truth value of its
    result, [None] when it raises. *)
Definition Callable (f : pyval -> option bool) : validator := fun data =>
  match f data with
  | Some true => Ok data
  | Some false => Raise (ShouldEvaluateToTrue data)
  | None => Raise (CallableRaised data)
  end.

(** [Regex(p)]: [p.search(data)]; a [TypeError] for data that is not text. *)
Definition Regex (p : pattern) : validator := fun data =>
  match data with
  | VStr s => if search p s then Ok data else Raise (DoesNotMatch data)
  | _ => Raise (NotStringNorBuffer data)
  end.

(** [And(s1, ..., sn)]: every schema in turn, each on the result of the
    previous one. *)
Fixpoint And (ss : list validator) : validator := fun data =>
  match ss with
  | [] => Ok data
  | s :: ss' =>
      match s data with
      | Ok data' => And ss' data'
      | Raise e => Raise e
      end
  end.

(** [Or(s1, ..., sn)]: the first schema that validates. *)
Fixpoint Or_from (ss : list validator) (errors : list SchemaError) : validator :=
  fun data =>
  match ss with
  | [] => Raise (DidNotValidate data errors)
  | s :: ss' =>
      match s data with
      | Ok data' => Ok data'
      | Raise e => Or_from ss' (errors ++ [e]) data
      end
  end.

Definition Or (ss : list validator) : validator := Or_from ss [].

(** A list as schema: the data is a list and each element validates against
    one of the listed schemas. *)
Fixpoint validate_each (o : validator) (l : list pyval) : result SchemaError (list pyval) :=
  match l with
  | [] => Ok []
  | d :: l' =>
      match o d with
      | Raise e => Raise e
      | Ok d' =>
          match validate_each o l' with
          | Raise e => Raise e
          | Ok l'' => Ok (d' :: l'')
          end
      end
  end.

Definition Iterable (ss : list validator) : validator := fun data =>
  match Type_ Tlist data with
  | Raise e => Raise e
  | Ok (VList l) =>
      match validate_each (Or ss) l with
      | Raise e => Raise e
      | Ok l' => Ok (VList l')
      end
  | Ok other => Raise (UnexpectedType other Tlist)
  end.

(** A key of a dictionary schema: a literal, required or wrapped in
    [Optional]. *)
Inductive skey : Type :=
| Required (k : string)
| Optional (k : string).

Definition skey_name (sk : skey) : string :=
  match sk with Required k | Optional k => k end.

Definition is_optional (sk : skey) : bool :=
  match sk with Optional _ => true | Required _ => false end.

(** [sorted(s, key=_dict_key_priority)]: among literal keys, the required
    ones come before the optional ones, otherwise the order is kept. *)
Definition sorted_skeys (entries : list (skey * validator)) : list (skey * validator) :=
  filter (fun e => negb (is_optional (fst e))) entries ++
  filter (fun e => is_optional (fst e)) entries.

(** [sorted(data.items(), key=lambda value: isinstance(value[1], dict))]:
    dictionaries are evaluated last. *)
Definition data_items (d : list (string * pyval)) : list (string * pyval) :=
  filter (fun kv => negb (isinstance (snd kv) Tdict)) d ++
  filter (fun kv => isinstance (snd kv) Tdict) d.

(** The first schema key that validates the data key. *)
Fixpoint find_skey (key : string) (skeys : list (skey * validator))
  : option (skey * validator) :=
  match skeys with
  | [] => None
  | (sk, sv) :: rest =>
      if String.eqb (skey_name sk) key then Some (sk, sv) else find_skey key rest
  end.

(** The loop over the data items: [new] collects the validated values,
    [coverage] the schema keys that matched. *)
Fixpoint validate_items (skeys : list (skey * validator))
    (items : list (string * pyval))
    (new : list (string * pyval)) (coverage : list string)
  : result SchemaError (list (string * pyval) * list string) :=
  match items with
  | [] => Ok (new, coverage)
  | (key, value) :: rest =>
      match find_skey key skeys with
      | None => validate_items skeys rest new coverage
      | Some (sk, svalue) =>
          match svalue value with
          | Raise x => Raise (KeyError key x)
          | Ok nvalue =>
              validate_items skeys rest (dict_set key nvalue new)
                (skey_name sk :: coverage)
          end
      end
  end.

Definition required_keys (entries : list (skey * validator)) : list string :=
  map (fun e => skey_name (fst e)) (filter (fun e => negb (is_optional (fst e))) entries).

(** A dictionary as schema, extra keys not ignored.  The two key errors
    hold the keys concerned as a list in the order of the schema or of the
    data; the message of the package prints them sorted. *)
Definition Dict (entries : list (skey * validator)) : validator := fun data =>
  match Type_ Tdict data with
  | Raise e => Raise e
  | Ok (VDict d) =>
      match validate_items (sorted_skeys entries) (data_items d) [] [] with
      | Raise e => Raise e
      | Ok (new, coverage) =>
          let missing :=
            filter (fun k => negb (mem_str k coverage)) (required_keys entries) in
          if negb (Nat.eqb (List.length missing) 0)
          then Raise (MissingKey missing)
          else if negb (Nat.eqb (List.length new) (List.length d))
          then Raise (WrongKey
                        (filter (fun k => negb (mem_str k (keys new))) (keys d))
                        data)
          else Ok (VDict new)
      end
  | Ok other => Raise (UnexpectedType other Tdict)
  end.

End SchemaLib.

Export SchemaLib.

(** ** [clarifai/schema/search.py] *)

Module SearchSchema.

(** Truth value of a Python object ([if x]), for the objects a callable of
    the schema returns. *)
Definition truthy_len (x : pyval) : option bool :=
  match len x with
  | Some n => Some (negb (Nat.eqb n 0))
  | None => None
  end.

(** [lambda x: x in [0, 1]]: membership by [==], under which [True] and
    [1.0] equal [1]. *)
Definition py_eq_int (x : pyval) (n : Z) : bool :=
  match x with
  | VInt m => Z.eqb m n
  | VBool b => Z.eqb (if b then 1 else 0) n
  | VFloat f => PrimFloat.eqb f (if Z.eqb n 0 then 0%float else 1%float)
  | _ => false
  end.

Definition in_0_1 (x : pyval) : option bool :=
  Some (py_eq_int x 0 || py_eq_int x 1).

(** The bracket expressions [[0-9A-Za-z]] and [[-_]]. *)
Definition alnum (c : ascii) : bool :=
  in_range "0" "9" c || in_range "A" "Z" c || in_range "a" "z" c.

Definition dash_underscore (c : ascii) : bool :=
  Ascii.eqb c "-" || Ascii.eqb c "_".

(** [r'^[0-9A-Za-z]+([-_][0-9A-Za-z]+)*$'] *)
Definition name_body : regex :=
  Cat (Plus (Chr alnum)) (Star (Cat (Chr dash_underscore) (Plus (Chr alnum)))).

Definition name_pattern : pattern := Pattern true name_body true.

(** [r'^https?://'] *)
Definition url_body : regex :=
  Cat (Lit (list_ascii_of_string "http"))
      (Cat (Opt (Chr (Ascii.eqb "s"))) (Lit (list_ascii_of_string "://"))).

Definition url_pattern : pattern := Pattern true url_body false.

(** Schema for a single concept. *)
Definition concept_schema : validator :=
  Dict [
    (Optional "value", And [Type_ Tint; Callable in_0_1]);
    (Optional "id", And [Type_ Tstr; Callable truthy_len]);
    (Optional "language", And [Type_ Tstr; Callable truthy_len]);
    (Optional "name", And [Type_ Tstr; Callable truthy_len; Regex name_pattern])
  ].

(** [all(f(item) for item in l)], stopping at the first false or raising
    element. *)
Fixpoint py_all (f : pyval -> option bool) (l : list pyval) : option bool :=
  match l with
  | [] => Some true
  | item :: l' =>
      match f item with
      | Some true => py_all f l'
      | Some false => Some false
      | None => None
      end
  end.

(** [concept_schema.is_valid(item) and len(item) > 0] *)
Definition concept_item_ok (item : pyval) : option bool :=
  if is_valid concept_schema item
  then match len item with
       | Some n => Some (Nat.ltb 0 n)
       | None => None
       end
  else Some false.

(** [lambda x: all(... for item in x)]; only a list reaches it. *)
Definition all_concepts_ok (x : pyval) : option bool :=
  match x with
  | VList l => py_all concept_item_ok l
  | _ => None
  end.

Definition geo_point_schema : validator :=
  Dict [
    (Required "longitude", Type_ Tfloat);
    (Required "latitude", Type_ Tfloat);
    (Required "geo_limit", Type_ Tint)
  ].

(** Schema for a rank or filter item. *)
Definition rank_filter_item_schema : validator :=
  Dict [
    (Optional "image_url", And [Type_ Tstr; Regex url_pattern]);
    (Optional "text_raw", And [Type_ Tstr; Callable truthy_len]);
    (Optional "metadata", Type_ Tdict);
    (Optional "image_bytes", Type_ Tbytes);
    (Optional "geo_point", geo_point_schema);
    (Optional "concepts", And [Type_ Tlist; Callable all_concepts_ok])
  ].

(** Schema for rank and filter args. *)
Definition get_schema : validator := Iterable [rank_filter_item_schema].

End SearchSchema.

Export SearchSchema.

(** ** [clarifai/client/search.py] *)

Module Client.

(** *** Protocol messages

    The messages of [clarifai_grpc] that the builder assembles.  A message
    field that may be unset is an [option]; a repeated field is a list. *)

(** Modelled from the spec: the [Inputs] collaborator
    ([clarifai/client/input.py]) is not among the sources; given raw bytes
    or a URL and a kind it returns a structured descriptor.  Each image and
    text descriptor is named by the call that produced it. *)
Inductive Image : Type :=
| image_from_bytes (image_bytes : pyval)
    (* inputs.get_input_from_bytes(id, image_bytes=...).data.image *)
| image_from_url (image_url : pyval).
    (* inputs.get_input_from_url(id, image_url=...).data.image *)

Inductive Text : Type :=
| text_from_bytes (text_bytes : pyval).
    (* inputs.get_input_from_bytes(id, text_bytes=...).data.text *)

(** [resources_pb2.Concept] built from the keyword arguments [concept]; the
    message is named by them. *)
Inductive Concept : Type :=
| Concept_of (kwargs : list (string * pyval)).

(** [Struct()] after [update(value)]: the structure that the conversion
    makes of the dictionary, named here by the dictionary given. *)
Inductive Struct : Type :=
| Struct_update (value : list (string * pyval)).

(** What a [float] field of a message holds once it has been given a Python
    number: the single-precision value nearest to it, named here by the
    number given. *)
Inductive float32 : Type :=
| float32_of (value : pyval).

Record GeoPoint : Type := { longitude : float32; latitude : float32 }.
Record GeoLimit : Type := { geo_limit_type : string; geo_limit_value : float32 }.
Record Geo : Type := { geo_point : option GeoPoint; geo_limit : option GeoLimit }.

Record Data : Type := {
  image : option Image;
  text : option Text;
  concepts : list Concept;
  metadata : option Struct;
  geo : option Geo
}.

(** [resources_pb2.Data()] *)
Definition Data_empty : Data :=
  {| image := None; text := None; concepts := []; metadata := None; geo := None |}.

Record Annotation : Type := { data : option Data }.

(** [resources_pb2.Annotation()] *)
Definition Annotation_empty : Annotation := {| data := None |}.

Record Rank : Type := { rank_annotation : Annotation }.
Record Filter : Type := { filter_annotation : Annotation }.
Record Query : Type := { ranks : list Rank; filters : list Filter }.
Record SearchMsg : Type := { query_ : Query; metric : string }.

Record UserAppIDSet : Type := { user_id : string; app_id : string }.
Record Pagination : Type := { page : Z; per_page : Z }.

(** [service_pb2.PostAnnotationsSearchesRequest] *)
Record Request : Type := {
  req_user_app_id : UserAppIDSet;
  req_searches : list SearchMsg;
  req_pagination : option Pagination
}.

Record Hit : Type := { hit_input_id : string }.

(** [service_pb2.MultiSearchResponse]: the status code and the hits. *)
Record Response : Type := { status_code : Z; hits : list Hit }.

(** [status_code_pb2.SUCCESS] *)
Definition SUCCESS : Z := 10000.

(** The keys of [MessageToDict(response, preserving_proto_field_name=True)]
    for the two fields kept here: a repeated field is left out when it is
    empty. *)
Definition MessageToDict_keys (response : Response) : list string :=
  "status" :: match hits response with [] => [] | _ :: _ => ["hits"] end.

(** *** Exceptions *)

Inductive UserErrorMessage : Type :=
| MetricShouldBeCosineOrEuclidean
    (* "Metric should be either cosine or euclidean" *)
| KwargsKeyNotSupported (key : string)
    (* "kwargs contain key that is not supported: {key}" *)
| InvalidRankOrFilterInput (err : SchemaError).
    (* "Invalid rank or filter input: {err}" *)

Inductive exn : Type :=
| UserError (msg : UserErrorMessage)
| ListingFailed (response : Response)
    (* Exception("Listing failed with response {response!r}") *)
| PyKeyError (key : string)
| PyTypeError
| PyAttributeError
| TransportError (code : Z).

(** *** The session and the remote endpoint *)

(** An RPC stub method: the response to a request, which may depend on the
    requests served before it; a transport failure is raised. *)
Definition Endpoint : Type := list Request -> Request -> result exn Response.

Record Search : Type := {
  self_user_id : string;
  self_app_id : string;
  metric_distance : string;
  data_proto : Data;
  rank_filter_schema : validator;
  user_app_id : UserAppIDSet;
  STUB_PostAnnotationsSearches : Endpoint;
  default_page_size : Z
}.

(** The state a method runs in: the session object and the requests sent
    over the transport so far, oldest first. *)
Record State : Type := { self : Search; sent : list Request }.

(** State and exception monad of the methods. *)
Definition M (A : Type) : Type := State -> result exn A * State.

Definition ret {A : Type} (a : A) : M A := fun st => (Ok a, st).

Definition raise {A : Type} (e : exn) : M A := fun st => (Raise e, st).

Definition bind {A B : Type} (m : M A) (k : A -> M B) : M B := fun st =>
  match m st with
  | (Ok a, st') => k a st'
  | (Raise e, st') => (Raise e, st')
  end.

Notation "x <- m ;; k" := (bind m (fun x => k))
  (at level 61, m at next level, right associativity).
Notation "m ;;; k" := (bind m (fun _ => k))
  (at level 61, right associativity).

Definition get_self : M Search := fun st => (Ok (self st), st).

Definition set_data_proto (d : Data) : M unit := fun st =>
  (Ok tt,
   {| self := {| self_user_id := self_user_id (self st);
                 self_app_id := self_app_id (self st);
                 metric_distance := metric_distance (self st);
                 data_proto := d;
                 rank_filter_schema := rank_filter_schema (self st);
                 user_app_id := user_app_id (self st);
                 STUB_PostAnnotationsSearches := STUB_PostAnnotationsSearches (self st);
                 default_page_size := default_page_size (self st) |};
      sent := sent st |}).

Definition update_data_proto (f : Data -> Data) : M unit :=
  s <- get_self ;; set_data_proto (f (data_proto s)).

(** Modelled from the spec: [BaseClient._grpc_request] is not among the
    sources; the transport is a callable from a request to a response, so
    it is one call of the stub method, which the state records. *)
Definition _grpc_request (endpoint : Endpoint) (request : Request) : M Response :=
  fun st =>
  (endpoint (sent st) request,
   {| self := self st; sent := sent st ++ [request] |}).

(** [dict(cosine=..., euclidean=...)[metric]] *)
Fixpoint lookup (k : string) (d : list (string * string)) : option string :=
  match d with
  | [] => None
  | (k', v) :: d' => if String.eqb k k' then Some v else lookup k d'
  end.

(** [Search.__init__].  [BaseClient.__init__] and [Lister.__init__] are not
    among the sources: the first opens the channel whose stub is an
    argument here and sets [user_app_id], the second stores the page size
    as [default_page_size]; neither is taken to raise. *)
Definition Search_init (stub : Endpoint) (user_id app_id : string) (top_k : Z)
    (metric : string) : result exn Search :=
  if negb (mem_str metric ["cosine"; "euclidean"])
  then Raise (UserError MetricShouldBeCosineOrEuclidean)
  else
    match lookup metric [("cosine", "COSINE_DISTANCE");
                         ("euclidean", "EUCLIDEAN_DISTANCE")] with
    | Some distance =>
        Ok {| self_user_id := user_id;
              self_app_id := app_id;
              metric_distance := distance;
              data_proto := Data_empty;
              rank_filter_schema := get_schema;
              user_app_id := {| user_id := user_id; app_id := app_id |};
              STUB_PostAnnotationsSearches := stub;
              default_page_size := top_k |}
    | None => Raise (PyKeyError metric)
    end.

(** *** Building annotations *)

(** [value[k]] *)
Definition getitem (value : pyval) (k : string) : M pyval :=
  match value with
  | VDict d =>
      match dict_get k d with
      | Some v => ret v
      | None => raise (PyKeyError k)
      end
  | _ => raise PyTypeError
  end.

(** [Search._get_geo_point_proto]: the three numbers go into [float]
    fields. *)
Definition _get_geo_point_proto (longitude latitude geo_limit : pyval) : Geo :=
  Build_Geo (Some (Build_GeoPoint (float32_of longitude) (float32_of latitude)))
            (Some (Build_GeoLimit "withinKilometers" (float32_of geo_limit))).

Definition with_image (x : Image) (d : Data) : Data :=
  {| image := Some x; text := text d; concepts := concepts d;
     metadata := metadata d; geo := geo d |}.

Definition with_text (x : Text) (d : Data) : Data :=
  {| image := image d; text := Some x; concepts := concepts d;
     metadata := metadata d; geo := geo d |}.

Definition add_concept (x : Concept) (d : Data) : Data :=
  {| image := image d; text := text d; concepts := concepts d ++ [x];
     metadata := metadata d; geo := geo d |}.

Definition with_metadata (x : Struct) (d : Data) : Data :=
  {| image := image d; text := text d; concepts := concepts d;
     metadata := Some x; geo := geo d |}.

Definition with_geo (x : Geo) (d : Data) : Data :=
  {| image := image d; text := text d; concepts := concepts d;
     metadata := metadata d; geo := Some x |}.

(** [for x in value]: the elements an iteration over [value] goes through;
    [None] stands for the [TypeError] of a value that is not iterable.  A
    dictionary gives its keys, a string its characters, bytes their
    codes. *)
Definition elements_of (value : pyval) : option (list pyval) :=
  match value with
  | VList l => Some l
  | VDict d => Some (map VStr (keys d))
  | VStr s =>
      Some (map (fun c => VStr (String c EmptyString)) (list_ascii_of_string s))
  | VBytes b => Some (map (fun c => VInt (Z.of_nat (nat_of_ascii c))) b)
  | _ => None
  end.

(** [for concept in value: self.data_proto.concepts.add().CopyFrom(...)];
    unpacking a [concept] that is not a mapping is a [TypeError].  The
    errors of the message constructor itself (a field name the message
    does not have, a value of the wrong type) are outside the model: for the
    concepts the schema accepts there is none. *)
Fixpoint add_concepts (value : list pyval) : M unit :=
  match value with
  | [] => ret tt
  | concept :: rest =>
      match concept with
      | VDict kwargs =>
          update_data_proto (add_concept (Concept_of kwargs)) ;;;
          add_concepts rest
      | _ => raise PyTypeError
      end
  end.

(** One turn of the loop over [kwargs.items()].  The conversion errors of
    [Struct.update] and of the geo messages (a metadata value that is not
    JSON-like, a number too large for a float) are outside the model: the
    statements about the builder are about the exceptions of these lines
    themselves, or conditional on its returning. *)
Definition set_field (key : string) (value : pyval) : M unit :=
  if String.eqb key "image_bytes" then
    update_data_proto (with_image (image_from_bytes value))
  else if String.eqb key "image_url" then
    update_data_proto (with_image (image_from_url value))
  else if String.eqb key "concepts" then
    match elements_of value with
    | Some l => add_concepts l
    | None => raise PyTypeError
    end
  else if String.eqb key "text_raw" then
    match value with
    | VStr s =>
        update_data_proto
          (with_text (text_from_bytes (VBytes (list_ascii_of_string s))))
    | _ => raise PyTypeError
    end
  else if String.eqb key "metadata" then
    match value with
    | VDict d => update_data_proto (with_metadata (Struct_update d))
    | _ => raise PyAttributeError (* [update] calls [value.items()] *)
    end
  else if String.eqb key "geo_point" then
    lon <- getitem value "longitude" ;;
    lat <- getitem value "latitude" ;;
    lim <- getitem value "geo_limit" ;;
    update_data_proto (with_geo (_get_geo_point_proto lon lat lim))
  else
    raise (UserError (KwargsKeyNotSupported key)).

Fixpoint fill_data_proto (items : list (string * pyval)) : M unit :=
  match items with
  | [] => ret tt
  | (key, value) :: rest => set_field key value ;;; fill_data_proto rest
  end.

(** [Search._get_annot_proto]: the body, on keyword arguments that the
    call has bound (see [call_get_annot_proto]). *)
Definition _get_annot_proto (kwargs : list (string * pyval)) : M Annotation :=
  match kwargs with
  | [] => ret Annotation_empty
  | _ :: _ =>
      set_data_proto Data_empty ;;;
      fill_data_proto kwargs ;;;
      s <- get_self ;;
      ret {| data := Some (data_proto s) |}
  end.

(** *** Pagination *)

(** The [request_data] dictionary. *)
Record RequestData : Type := {
  rd_user_app_id : UserAppIDSet;
  rd_searches : list SearchMsg;
  rd_pagination : option Pagination
}.

(** [service_pb2.PostAnnotationsSearchesRequest] built from the keyword
    arguments [request_data]. *)
Definition PostAnnotationsSearchesRequest (rd : RequestData) : Request :=
  {| req_user_app_id := rd_user_app_id rd;
     req_searches := rd_searches rd;
     req_pagination := rd_pagination rd |}.

Definition set_pagination (pg : Pagination) (rd : RequestData) : RequestData :=
  {| rd_user_app_id := rd_user_app_id rd;
     rd_searches := rd_searches rd;
     rd_pagination := Some pg |}.

(** The generator object of [list_all_pages_generator]: not started yet,
    suspended at its [yield], or finished.  A suspended generator holds its
    locals: the [Pagination] message that [request_data] refers to under
    the key [pagination], and [page]. *)
Inductive Generator : Type :=
| GenCreated (endpoint : Endpoint) (proto_message : RequestData -> Request)
    (request_data : RequestData)
| GenSuspended (endpoint : Endpoint) (proto_message : RequestData -> Request)
    (request_data : RequestData) (pagination : Pagination) (page : Z)
| GenFinished.

(** What [next(generator)] gives. *)
Inductive Signal : Type :=
| Yield (response : Response)
| StopIteration
| Raised (e : exn).

(** One turn of [while True].  The fields of [Pagination] are unsigned
    32-bit numbers and the message refuses any other value; the turn is
    modelled for a page and a page size in that range ([uint32] below),
    which the statements about the requests sent assume. *)
Definition loop_body (endpoint : Endpoint) (proto_message : RequestData -> Request)
    (request_data : RequestData) (pagination : Pagination) (page : Z) (st : State)
  : Signal * Generator * State :=
  let pagination := {| page := page; per_page := per_page pagination |} in
  match
    _grpc_request endpoint (proto_message (set_pagination pagination request_data)) st
  with
  | (Raise e, st') => (Raised e, GenFinished, st')
  | (Ok response, st') =>
      let dict_response := MessageToDict_keys response in
      if negb (Z.eqb (status_code response) SUCCESS)
      then (Raised (ListingFailed response), GenFinished, st')
      else if negb (mem_str "hits" dict_response)
      then (StopIteration, GenFinished, st')
      else (Yield response,
            GenSuspended endpoint proto_message request_data pagination (page + 1),
            st')
  end.

(** [next(generator)], for a page size in the range of [Pagination] (see
    [loop_body]). *)
Definition next (g : Generator) (st : State) : Signal * Generator * State :=
  match g with
  | GenCreated endpoint proto_message request_data =>
      let page := 1%Z in
      let pagination :=
        {| page := page; per_page := default_page_size (self st) |} in
      loop_body endpoint proto_message request_data pagination page st
  | GenSuspended endpoint proto_message request_data pagination page =>
      loop_body endpoint proto_message request_data pagination page st
  | GenFinished => (StopIteration, GenFinished, st)
  end.

(** [Search.list_all_pages_generator]: calling it only creates the
    generator. *)
Definition list_all_pages_generator (endpoint : Endpoint)
    (proto_message : RequestData -> Request) (request_data : RequestData)
  : M Generator :=
  ret (GenCreated endpoint proto_message request_data).

(** How a [for] loop over the generator ends. *)
Inductive Outcome : Type :=
| Exhausted
| Failed (e : exn)
| Unfinished (g : Generator).

(** [for response in generator]: the responses yielded in at most [fuel]
    calls of [next]. *)
Fixpoint iterate (fuel : nat) (g : Generator) (st : State)
  : list Response * Outcome * State :=
  match fuel with
  | O => ([], Unfinished g, st)
  | S fuel' =>
      match next g st with
      | (Yield response, g', st') =>
          match iterate fuel' g' st' with
          | (pages, out, st'') => (response :: pages, out, st'')
          end
      | (StopIteration, _, st') => ([], Exhausted, st')
      | (Raised e, _, st') => ([], Failed e, st')
      end
  end.

(** *** Query *)

(** The call [self._get_annot_proto( **item )]: the item is unpacked into
    keyword arguments, which the call binds before the body runs; a key
    [self] collides with the first parameter and is a [TypeError]. *)
Definition call_get_annot_proto (item : pyval) : M Annotation :=
  match item with
  | VDict kwargs =>
      if mem_str "self" (keys kwargs) then raise PyTypeError
      else _get_annot_proto kwargs
  | _ => raise PyTypeError
  end.

(** [[self._get_annot_proto(...) for item in items]] *)
Fixpoint get_annot_protos (items : list pyval) : M (list Annotation) :=
  match items with
  | [] => ret []
  | item :: rest =>
      annot <- call_get_annot_proto item ;;
      annots <- get_annot_protos rest ;;
      ret (annot :: annots)
  end.

Definition iter_list (x : pyval) : M (list pyval) :=
  match x with
  | VList l => ret l
  | _ => raise PyTypeError
  end.

(** The default value of [ranks] and of [filters]. *)
Definition default_items : pyval := VList [VDict []].

(** The [try] block of [query]: both validations, the first
    [SchemaError] caught. *)
Definition validate_rank_filter (s : Search) (ranks filters : pyval)
  : result SchemaError unit :=
  match rank_filter_schema s ranks with
  | Raise err => Raise err
  | Ok _ =>
      match rank_filter_schema s filters with
      | Raise err => Raise err
      | Ok _ => Ok tt
      end
  end.

(** [Search.query] *)
Definition query (ranks filters : pyval) : M Generator :=
  s <- get_self ;;
  match validate_rank_filter s ranks filters with
  | Raise err => raise (UserError (InvalidRankOrFilterInput err))
  | Ok _ =>
      rank_items <- iter_list ranks ;;
      rank_annot_proto <- get_annot_protos rank_items ;;
      filter_items <- iter_list filters ;;
      filters_annot_proto <- get_annot_protos filter_items ;;
      let all_ranks := map Build_Rank rank_annot_proto in
      let all_filters := map Build_Filter filters_annot_proto in
      s <- get_self ;;
      let request_data :=
        {| rd_user_app_id := user_app_id s;
           rd_searches :=
             [ {| query_ := {| ranks := all_ranks; filters := all_filters |};
                  metric := metric_distance s |} ];
           rd_pagination := None |} in
      list_all_pages_generator (STUB_PostAnnotationsSearches s)
        PostAnnotationsSearchesRequest request_data
  end.

End Client.

Export Client.

(** ** The claims in the words of the specification *)

Module Spec.

(** A concept name: non-empty alphanumeric segments joined by single
    dashes or underscores. *)
Inductive spec_name : list ascii -> Prop :=
| name_segment seg :
    seg <> [] -> forallb alnum seg = true -> spec_name seg
| name_joined seg sep rest :
    seg <> [] -> forallb alnum seg = true -> dash_underscore sep = true ->
    spec_name rest -> spec_name (seg ++ sep :: rest).

(** One field of a ConceptSpec. *)
Definition spec_concept_field (kv : string * pyval) : Prop :=
  match kv with
  | (k, v) =>
      (k = "name" /\ exists s, v = VStr s /\ spec_name (list_ascii_of_string s)) \/
      (k = "id" /\ exists s, v = VStr s /\ s <> "") \/
      (k = "language" /\ exists s, v = VStr s /\ s <> "") \/
      (k = "value" /\ (v = VInt 0 \/ v = VInt 1))
  end.

(** ConceptSpec: a non-empty object with at least one of the four fields and
    nothing else. *)
Definition spec_concept (c : pyval) : Prop :=
  exists d, c = VDict d /\ d <> [] /\ NoDup (keys d) /\ Forall spec_concept_field d.

(** A geo point: an object with exactly the three fields, of the required
    types. *)
Definition spec_geo_point (v : pyval) : Prop :=
  exists d, v = VDict d /\
    Permutation (keys d) ["longitude"; "latitude"; "geo_limit"] /\
    (exists x, dict_get "longitude" d = Some (VFloat x)) /\
    (exists y, dict_get "latitude" d = Some (VFloat y)) /\
    (exists n, dict_get "geo_limit" d = Some (VInt n)).

(** The recognized keys of a QueryItem. *)
Definition recognized_keys : list string :=
  ["image_url"; "image_bytes"; "text_raw"; "metadata"; "geo_point"; "concepts"].

(** A recognized key with a conforming value. *)
Definition spec_conforming (kv : string * pyval) : Prop :=
  match kv with
  | (k, v) =>
      (k = "image_url" /\ exists s, v = VStr s /\
         (String.prefix "http://" s = true \/ String.prefix "https://" s = true)) \/
      (k = "text_raw" /\ exists s, v = VStr s /\ s <> "") \/
      (k = "metadata" /\ exists d, v = VDict d) \/
      (k = "image_bytes" /\ exists b, v = VBytes b) \/
      (k = "geo_point" /\ spec_geo_point v) \/
      (k = "concepts" /\ exists l, v = VList l /\ l <> [] /\ Forall spec_concept l)
  end.

(** A QueryItem with only recognized keys and conforming values. *)
Definition spec_query_item (item : pyval) : Prop :=
  exists d, item = VDict d /\ NoDup (keys d) /\ Forall spec_conforming d.

(** What the validator asks of one element of a [concepts] list. *)
Definition concept_element_ok (item : pyval) : Prop :=
  exists d, item = VDict d /\ d <> [] /\ is_valid concept_schema item = true.

(** What [concept_schema] accepts under each of its keys. *)
Definition accepted_concept_field (kv : string * pyval) : Prop :=
  match kv with
  | (k, v) =>
      (k = "value" /\ (v = VInt 0 \/ v = VInt 1)) \/
      (k = "id" /\ exists s, v = VStr s /\ s <> "") \/
      (k = "language" /\ exists s, v = VStr s /\ s <> "") \/
      (k = "name" /\ exists s, v = VStr s /\ s <> "" /\ search name_pattern s = true)
  end.

(** What [rank_filter_item_schema] accepts under each of its keys. *)
Definition accepted_entry (kv : string * pyval) : Prop :=
  match kv with
  | (k, v) =>
      (k = "image_url" /\ exists s, v = VStr s /\ search url_pattern s = true) \/
      (k = "text_raw" /\ exists s, v = VStr s /\ s <> "") \/
      (k = "metadata" /\ exists d, v = VDict d) \/
      (k = "image_bytes" /\ exists b, v = VBytes b) \/
      (k = "geo_point" /\ spec_geo_point v) \/
      (k = "concepts" /\ exists l, v = VList l /\ Forall concept_element_ok l)
  end.




(** The range of an unsigned 32-bit field of a message. *)
Definition uint32 (z : Z) : Prop := (0 <= z < 2 ^ 32)%Z.

(** The name [dog] followed by a newline character. *)
Definition dog_newline : string := "dog" ++ String newline EmptyString.

(** The request for page [i] with page size [top_k]. *)
Definition page_request (proto_message : RequestData -> Request)
    (request_data : RequestData) (top_k : Z) (i : Z) : Request :=
  proto_message (set_pagination {| page := i; per_page := top_k |} request_data).

(** The requests for pages [first .. first + n - 1]. *)
Definition page_requests (proto_message : RequestData -> Request)
    (request_data : RequestData) (top_k : Z) (first : Z) (n : nat) : list Request :=
  map (fun k => page_request proto_message request_data top_k (first + Z.of_nat k))
      (seq 0 n).

(** Does the decoded response contain a hits field? *)
Definition has_hits (response : Response) : bool :=
  mem_str "hits" (MessageToDict_keys response).

(** The request the next call of [next] sends, for a generator that is not
    finished, and the endpoint it is sent to. *)
Definition pending_request (g : Generator) (st : State) : option (Endpoint * Request) :=
  match g with
  | GenCreated endpoint proto_message request_data =>
      Some (endpoint,
            page_request proto_message request_data (default_page_size (self st)) 1)
  | GenSuspended endpoint proto_message request_data pagination page =>
      Some (endpoint,
            page_request proto_message request_data (per_page pagination) page)
  | GenFinished => None
  end.

(** The page and the page size of the next request fit the fields of
    [Pagination]. *)
Definition sendable (g : Generator) (st : State) : Prop :=
  match g with
  | GenCreated _ _ _ => uint32 (default_page_size (self st))
  | GenSuspended _ _ _ pagination page => uint32 (per_page pagination) /\ uint32 page
  | GenFinished => True
  end.

End Spec.

Export Spec.

(** ** Inputs of the examples *)

Module Examples.

Definition dog_hit : Hit := {| hit_input_id := "dog-tiff" |}.

(** A successful page with one hit, a successful page without hits, and a
    page with a failure status. *)
Definition hit_page : Response := {| status_code := SUCCESS; hits := [dog_hit] |}.
Definition empty_page : Response := {| status_code := SUCCESS; hits := [] |}.
Definition failed_page : Response := {| status_code := 21200; hits := [dog_hit] |}.

(** A service with hits on pages 1 and 2 and on no later page. *)
Definition two_pages : Endpoint := fun _ request =>
  match req_pagination request with
  | Some pg => if Z.leb (page pg) 2 then Ok hit_page else Ok empty_page
  | None => Raise (TransportError 0)
  end.

(** The same service, except that its first page, hits included, comes with
    a failure status. *)
Definition failed_first : Endpoint := fun _ request =>
  match req_pagination request with
  | Some pg =>
      if Z.eqb (page pg) 1 then Ok failed_page
      else if Z.leb (page pg) 2 then Ok hit_page else Ok empty_page
  | None => Raise (TransportError 0)
  end.

(** A service that cannot be reached, and one without any result. *)
Definition unreachable : Endpoint := fun _ _ => Raise (TransportError 14).
Definition no_results : Endpoint := fun _ _ => Ok empty_page.

(** A service that fails on every page. *)
Definition failing : Endpoint := fun _ _ => Ok failed_page.

(** The session of the test suite, on the service [two_pages]. *)
Definition test_session (stub : Endpoint) : Search :=
  {| self_user_id := "user";
     self_app_id := "app";
     metric_distance := "EUCLIDEAN_DISTANCE";
     data_proto := Data_empty;
     rank_filter_schema := get_schema;
     user_app_id := {| user_id := "user"; app_id := "app" |};
     STUB_PostAnnotationsSearches := stub;
     default_page_size := 1 |}.

Definition test_state (stub : Endpoint) : State :=
  {| self := test_session stub; sent := [] |}.

Definition dog_concept : pyval := VDict [("name", VStr "dog"); ("value", VInt 1)].

(** Filters the schema refuses: a concept value of 2. *)
Definition bad_filters : pyval :=
  VList [VDict [("concepts", VList [VDict [("name", VStr "deer"); ("value", VInt 2)]])]].

(** An item with concepts and a text. *)
Definition dog_item : list (string * pyval) :=
  [("concepts", VList [dog_concept]); ("text_raw", VStr "dog")].

(** An item with an image given twice, the URL last. *)
Definition two_images : list (string * pyval) :=
  [("image_bytes", VBytes []); ("image_url", VStr "https://samples.clarifai.com/dog.tiff")].

(** The request data that [query] composes from its default arguments in
    the session of the test suite. *)
Definition default_request_data : RequestData :=
  {| rd_user_app_id := {| user_id := "user"; app_id := "app" |};
     rd_searches :=
       [ {| query_ :=
              {| ranks := [ {| rank_annotation := Annotation_empty |} ];
                 filters := [ {| filter_annotation := Annotation_empty |} ] |};
            metric := "EUCLIDEAN_DISTANCE" |} ];
     rd_pagination := None |}.

Definition no_searches : RequestData :=
  {| rd_user_app_id := {| user_id := "user"; app_id := "app" |};
     rd_searches := [];
     rd_pagination := None |}.

End Examples.

Export Examples.

(** ** Parts of the state *)

Module Frame.

(** The data buffer of the session. *)
Definition buffer (st : State) : Data := data_proto (self st).

(** The state with the buffer replaced. *)
Definition put_data (d : Data) (st : State) : State := snd (set_data_proto d st).

(** Everything in the state but the buffer: the requests sent and the other
    attributes of the session. *)
Definition fixed_part (st : State) :=
  (sent st, self_user_id (self st), self_app_id (self st),
   metric_distance (self st), rank_filter_schema (self st),
   user_app_id (self st), STUB_PostAnnotationsSearches (self st),
   default_page_size (self st)).

(** The part [proj] of the state does not see the change [f] of the
    buffer. *)
Definition stable {X : Type} (proj : State -> X) (f : Data -> Data) : Prop :=
  forall st, proj (put_data (f (buffer st)) st) = proj st.

(** The branch of [_get_annot_proto] for [key] leaves the part [proj] of the
    state as it is. *)
Definition untouched {X : Type} (proj : State -> X) (key : string) : Prop :=
  ((key = "image_bytes" \/ key = "image_url") ->
   forall x, stable proj (with_image x)) /\
  (key = "concepts" -> forall x, stable proj (add_concept x)) /\
  (key = "text_raw" -> forall x, stable proj (with_text x)) /\
  (key = "metadata" -> forall x, stable proj (with_metadata x)) /\
  (key = "geo_point" -> forall x, stable proj (with_geo x)).

(** A method whose result and whose effect on the buffer depend on the
    buffer alone. *)
Definition buffer_only {A : Type} (m : M A) : Prop :=
  forall st1 st2, buffer st1 = buffer st2 ->
    fst (m st1) = fst (m st2) /\ buffer (snd (m st1)) = buffer (snd (m st2)).

(** The annotation that the call of [_get_annot_proto] returns for an
    item, whatever the state. *)
Definition built (item : pyval) (annot : Annotation) : Prop :=
  forall st, fst (call_get_annot_proto item st) = Ok annot.

(** The image a key of an item stands for. *)
Definition image_of (key : string) (value : pyval) : Image :=
  if String.eqb key "image_bytes" then image_from_bytes value
  else image_from_url value.

(** The request of [query] for page [i]: the identity and the searches of
    the request data, and the pagination. *)
Definition search_request (rd : RequestData) (top_k i : Z) : Request :=
  {| req_user_app_id := rd_user_app_id rd;
     req_searches := rd_searches rd;
     req_pagination := Some {| page := i; per_page := top_k |} |}.

End Frame.

Export Frame.

(** ** Facts about the matcher *)

Lemma matches_cat_inv r1 r2 s :
  matches (Cat r1 r2) s ->
  exists s1 s2, s = s1 ++ s2 /\ matches r1 s1 /\ matches r2 s2.
Proof.
  intros H. inversion H; subst. eauto.
Qed.

Lemma matches_alt_inv r1 r2 s :
  matches (Alt r1 r2) s -> matches r1 s \/ matches r2 s.
Proof.
  intros H. inversion H; subst; auto.
Qed.

Lemma matches_chr_inv p s :
  matches (Chr p) s -> exists c, s = [c] /\ p c = true.
Proof.
  intros H. inversion H; subst. eauto.
Qed.

Lemma matches_star_cons r c s :
  matches (Star r) (c :: s) ->
  exists s1 s2, s = s1 ++ s2 /\ matches r (c :: s1) /\ matches (Star r) s2.
Proof.
  intros H.
  remember (Star r) as r' eqn:Er. remember (c :: s) as w eqn:Ew.
  induction H; try discriminate.
  injection Er as ->.
  destruct s1 as [|c1 s1]; simpl in Ew.
  - apply IHmatches2; auto.
  - injection Ew as -> <-. eauto.
Qed.

Lemma nullable_matches r : nullable r = true <-> matches r [].
Proof.
  induction r; simpl.
  - split; [discriminate | intros H; inversion H].
  - split; [constructor | reflexivity].
  - split; [discriminate | intros H; inversion H].
  - rewrite andb_true_iff, IHr1, IHr2. split.
    + intros [H1 H2]. apply (MCat _ _ [] []); assumption.
    + intros H. apply matches_cat_inv in H as (s1 & s2 & E & H1 & H2).
      symmetry in E. apply app_eq_nil in E as [-> ->]. auto.
  - rewrite orb_true_iff, IHr1, IHr2. split.
    + intros [H | H]; [apply MAltL | apply MAltR]; assumption.
    + apply matches_alt_inv.
  - split; [constructor | reflexivity].
Qed.

Lemma deriv_matches r : forall c s, matches (deriv c r) s <-> matches r (c :: s).
Proof.
  induction r; intros c s; simpl.
  - split; intros H; inversion H.
  - split; intros H; inversion H.
  - destruct (p c) eqn:Ep; split; intros H.
    + inversion H; subst. constructor; assumption.
    + inversion H; subst. constructor.
    + inversion H.
    + inversion H; subst. congruence.
  - assert (Hcat : matches (Cat (deriv c r1) r2) s <->
                   exists s1 s2, s = s1 ++ s2 /\ matches r1 (c :: s1) /\ matches r2 s2).
    { split.
      - intros H. apply matches_cat_inv in H as (s1 & s2 & -> & H1 & H2).
        exists s1, s2. rewrite <- IHr1. auto.
      - intros (s1 & s2 & -> & H1 & H2). constructor; [apply IHr1 |]; assumption. }
    assert (Hinv : matches (Cat r1 r2) (c :: s) <->
                   (exists s1 s2, s = s1 ++ s2 /\ matches r1 (c :: s1) /\ matches r2 s2) \/
                   (matches r1 [] /\ matches r2 (c :: s))).
    { split.
      - intros H. apply matches_cat_inv in H as (s1 & s2 & E & H1 & H2).
        destruct s1 as [|c1 s1]; simpl in E.
        + subst s2. right. auto.
        + injection E as <- ->. left. eauto.
      - intros [(s1 & s2 & -> & H1 & H2) | [H1 H2]].
        + apply (MCat _ _ (c :: s1) s2); assumption.
        + apply (MCat _ _ [] (c :: s)); assumption. }
    rewrite Hinv. destruct (nullable r1) eqn:En.
    + apply nullable_matches in En. split.
      * intros H. apply matches_alt_inv in H as [H | H].
        -- left. apply Hcat, H.
        -- right. split; [assumption | apply IHr2, H].
      * intros [H | [_ H]]; [apply MAltL, Hcat, H | apply MAltR, IHr2, H].
    + rewrite Hcat. split; [auto |].
      intros [H | [H _]]; [assumption |].
      apply nullable_matches in H. congruence.
  - split; intros H.
    + apply matches_alt_inv in H as [H | H];
        [apply MAltL, IHr1, H | apply MAltR, IHr2, H].
    + apply matches_alt_inv in H as [H | H];
        [apply MAltL, IHr1, H | apply MAltR, IHr2, H].
  - split; intros H.
    + apply matches_cat_inv in H as (s1 & s2 & -> & H1 & H2).
      apply (MStarApp _ (c :: s1) s2); [apply IHr, H1 | exact H2].
    + apply matches_star_cons in H as (s1 & s2 & -> & H1 & H2).
      constructor; [apply IHr, H1 | exact H2].
Qed.

(** [match_here] finds exactly the matches that begin at the head. *)
Lemma match_here_spec fin : forall s r,
  match_here fin r s = true <->
  exists s1 s2, s = s1 ++ s2 /\ matches r s1 /\ fin s2 = true.
Proof.
  induction s as [|c s IH]; intros r; simpl.
  - rewrite orb_false_r, andb_true_iff, nullable_matches. split.
    + intros [H1 H2]. exists [], []. auto.
    + intros (s1 & s2 & E & H1 & H2).
      symmetry in E. apply app_eq_nil in E as [-> ->]. auto.
  - rewrite orb_true_iff, andb_true_iff, nullable_matches, IH. split.
    + intros [[H1 H2] | (s1 & s2 & -> & H1 & H2)].
      * exists [], (c :: s). auto.
      * exists (c :: s1), s2. rewrite <- deriv_matches. auto.
    + intros (s1 & s2 & E & H1 & H2). destruct s1 as [|c1 s1]; simpl in E.
      * subst s2. left. auto.
      * injection E as <- ->. right. exists s1, s2.
        rewrite deriv_matches. auto.
Qed.

(** A whole-string match, decided by derivatives. *)
Lemma matches_decide : forall s r,
  match_here (fun rest => match rest with [] => true | _ => false end) r s = true ->
  matches r s.
Proof.
  intros s r H. apply match_here_spec in H as (s1 & s2 & -> & H1 & H2).
  destruct s2; [| discriminate]. rewrite app_nil_r. exact H1.
Qed.

(** ** Facts about the name pattern *)

Lemma matches_star_chr p s : matches (Star (Chr p)) s <-> forallb p s = true.
Proof.
  split.
  - intros H. remember (Star (Chr p)) as r eqn:Er.
    induction H; try discriminate; [reflexivity |].
    injection Er as ->.
    apply matches_chr_inv in H as (c & -> & Hc). simpl.
    rewrite Hc. apply IHmatches2. reflexivity.
  - induction s as [|c s IH]; simpl; intros H.
    + constructor.
    + apply andb_true_iff in H as [Hc Hs].
      apply (MStarApp _ [c] s); [constructor; exact Hc | apply IH, Hs].
Qed.

Lemma matches_plus_chr p s :
  matches (Plus (Chr p)) s <-> s <> [] /\ forallb p s = true.
Proof.
  unfold Plus. split.
  - intros H. apply matches_cat_inv in H as (s1 & s2 & -> & H1 & H2).
    apply matches_chr_inv in H1 as (c & -> & Hc).
    apply matches_star_chr in H2. simpl. rewrite Hc, H2.
    split; [discriminate | reflexivity].
  - intros [Hne H]. destruct s as [|c s]; [congruence |].
    simpl in H. apply andb_true_iff in H as [Hc Hs].
    apply (MCat _ _ [c] s); [constructor; exact Hc | apply matches_star_chr, Hs].
Qed.

Lemma name_tail_spec t :
  matches (Star (Cat (Chr dash_underscore) (Plus (Chr alnum)))) t ->
  forall seg, seg <> [] -> forallb alnum seg = true -> spec_name (seg ++ t).
Proof.
  intros H.
  remember (Star (Cat (Chr dash_underscore) (Plus (Chr alnum)))) as r eqn:Er.
  induction H; try discriminate; intros seg Hne Hseg.
  - rewrite app_nil_r. apply name_segment; assumption.
  - injection Er as ->.
    apply matches_cat_inv in H as (d & seg' & -> & Hd & Hseg').
    apply matches_chr_inv in Hd as (c & -> & Hc).
    apply matches_plus_chr in Hseg' as [Hne' Hal'].
    rewrite <- app_assoc. simpl.
    apply name_joined; auto.
Qed.

Lemma name_body_spec s : matches name_body s <-> spec_name s.
Proof.
  unfold name_body. split.
  - intros H. apply matches_cat_inv in H as (seg & t & -> & Hseg & Ht).
    apply matches_plus_chr in Hseg as [Hne Hal].
    apply name_tail_spec; assumption.
  - induction 1 as [seg Hne Hal | seg sep rest Hne Hal Hsep Hrest IH].
    + rewrite <- (app_nil_r seg).
      constructor; [apply matches_plus_chr; auto | constructor].
    + apply matches_cat_inv in IH as (seg' & t & -> & Hseg' & Ht).
      constructor; [apply matches_plus_chr; auto |].
      change (sep :: seg' ++ t) with (([sep] ++ seg') ++ t).
      constructor; [| exact Ht].
      constructor; [constructor; exact Hsep | exact Hseg'].
Qed.

(** [Regex(name).search] accepts the names of the specification, and the
    same names followed by one newline. *)
Lemma name_search_spec (s : string) :
  search name_pattern s = true <->
  spec_name (list_ascii_of_string s) \/
  exists front, list_ascii_of_string s = front ++ [newline] /\ spec_name front.
Proof.
  unfold search. simpl.
  rewrite match_here_spec. split.
  - intros (s1 & s2 & E & H1 & H2). apply name_body_spec in H1.
    unfold end_ok in H2. simpl in H2.
    destruct s2 as [|c [|c' s2]]; simpl in H2; try discriminate.
    + rewrite app_nil_r in E. left. congruence.
    + apply Ascii.eqb_eq in H2. subst c. right. eauto.
  - intros [H | (front & E & H)].
    + exists (list_ascii_of_string s), []. rewrite app_nil_r.
      repeat split. apply name_body_spec, H.
    + exists front, [newline]. repeat split; [exact E | apply name_body_spec, H].
Qed.

Lemma spec_name_chars s :
  spec_name s -> forallb (fun c => alnum c || dash_underscore c) s = true.
Proof.
  assert (Hseg : forall seg, forallb alnum seg = true ->
                 forallb (fun c => alnum c || dash_underscore c) seg = true).
  { intros seg H. rewrite forallb_forall in *. intros c Hc.
    rewrite (H c Hc). reflexivity. }
  induction 1 as [seg Hne Hal | seg sep rest Hne Hal Hsep Hrest IH].
  - apply Hseg, Hal.
  - rewrite forallb_app. simpl. rewrite (Hseg _ Hal), Hsep, IH.
    rewrite orb_true_r. reflexivity.
Qed.

Lemma spec_name_first s :
  spec_name s -> exists c rest, s = c :: rest /\ alnum c = true.
Proof.
  intros H. destruct H as [seg Hne Hal | seg sep rest Hne Hal Hsep Hrest].
  - destruct seg as [|c seg]; [congruence |]. simpl in Hal.
    apply andb_true_iff in Hal as [Hc _]. eauto.
  - destruct seg as [|c seg]; [congruence |]. simpl in Hal.
    apply andb_true_iff in Hal as [Hc _]. simpl. eauto.
Qed.

Lemma spec_name_last s :
  spec_name s -> exists front c, s = front ++ [c] /\ alnum c = true.
Proof.
  induction 1 as [seg Hne Hal | seg sep rest Hne Hal Hsep Hrest IH].
  - destruct (exists_last Hne) as (front & c & ->).
    rewrite forallb_app in Hal. simpl in Hal.
    apply andb_true_iff in Hal as [_ Hc]. rewrite andb_true_r in Hc. eauto.
  - destruct IH as (front & c & -> & Hc).
    exists (seg ++ sep :: front), c. rewrite <- app_assoc. simpl. auto.
Qed.

Lemma alnum_not_separator c : alnum c = true -> dash_underscore c = false.
Proof.
  destruct c as [[] [] [] [] [] [] [] []]; vm_compute; congruence.
Qed.

(** ** Facts about dictionary schemas *)

Lemma mem_str_In k l : mem_str k l = true <-> In k l.
Proof.
  unfold mem_str. rewrite existsb_exists. split.
  - intros (x & Hx & E). apply String.eqb_eq in E. subst. exact Hx.
  - intros H. exists k. split; [exact H | apply String.eqb_refl].
Qed.

Lemma mem_str_false k l : mem_str k l = false <-> ~ In k l.
Proof.
  rewrite <- mem_str_In. destruct (mem_str k l); split; congruence.
Qed.

Lemma dict_set_keys k v d x :
  In x (keys (dict_set k v d)) <-> x = k \/ In x (keys d).
Proof.
  induction d as [|[k' v'] d IH]; simpl.
  - intuition congruence.
  - destruct (String.eqb k k') eqn:E; simpl.
    + apply String.eqb_eq in E. subst. intuition congruence.
    + unfold keys in IH. rewrite IH. intuition congruence.
Qed.

Lemma dict_set_length k v d :
  List.length (dict_set k v d) =
  if mem_str k (keys d) then List.length d else S (List.length d).
Proof.
  induction d as [|[k' v'] d IH]; simpl; [reflexivity |].
  destruct (String.eqb k k') eqn:E; simpl; [reflexivity |].
  rewrite IH. unfold mem_str, keys. destruct (existsb _ _); reflexivity.
Qed.

Lemma find_skey_name key skeys sk sv :
  find_skey key skeys = Some (sk, sv) -> skey_name sk = key /\ In (sk, sv) skeys.
Proof.
  induction skeys as [|[sk' sv'] skeys IH]; simpl; [discriminate |].
  destruct (String.eqb (skey_name sk') key) eqn:E.
  - intros H. injection H as -> ->. apply String.eqb_eq in E. auto.
  - intros H. destruct (IH H). auto.
Qed.

(** When the loop over the items succeeds, every matched item is valid and
    [new] has grown by the matched keys. *)
Lemma validate_items_ok skeys : forall items new cov new' cov',
  validate_items skeys items new cov = Ok (new', cov') ->
  (forall k v sk sv, In (k, v) items -> find_skey k skeys = Some (sk, sv) ->
                     is_valid sv v = true) /\
  (forall x, In x cov' ->
             In x cov \/ (In x (keys items) /\ find_skey x skeys <> None)) /\
  (List.length new' <= List.length new + List.length items)%nat /\
  (List.length new' = List.length new + List.length items ->
   NoDup (keys items) /\
   forall x, In x (keys items) -> ~ In x (keys new) /\ find_skey x skeys <> None).
Proof.
  induction items as [|[key value] items IH]; simpl; intros new cov new' cov' H.
  - injection H as <- <-. repeat split; try tauto; try lia. constructor.
  - destruct (find_skey key skeys) as [[sk svalue]|] eqn:Ef.
    + destruct (svalue value) as [nvalue|x] eqn:Ev; [| discriminate].
      apply IH in H as (Hvalid & Hcov & Hle & Heq).
      pose proof (dict_set_length key nvalue new) as Hlen.
      destruct (find_skey_name _ _ _ _ Ef) as [Hname _].
      repeat split.
      * intros k v sk' sv' [E | Hin] Hf.
        -- injection E as <- <-. rewrite Ef in Hf. injection Hf as <- <-.
           unfold is_valid. rewrite Ev. reflexivity.
        -- eapply Hvalid; eauto.
      * intros x Hx. apply Hcov in Hx as [[E | Hx] | [Hx Hf]]; auto.
        right. split; [left; congruence | congruence].
      * destruct (mem_str key (keys new)); lia.
      * destruct (mem_str key (keys new)) eqn:Em; [lia |].
        assert (Hlen' : List.length new' =
                        List.length (dict_set key nvalue new) + List.length items) by lia.
        apply Heq in Hlen' as [Hnd Hfresh].
        constructor; [| exact Hnd].
        intros Hin. apply Hfresh in Hin as [Hin _].
        apply Hin. apply dict_set_keys. auto.
      * destruct (mem_str key (keys new)) eqn:Em; [lia |].
        assert (Hlen' : List.length new' =
                        List.length (dict_set key nvalue new) + List.length items) by lia.
        apply Heq in Hlen' as [Hnd Hfresh].
        destruct H0 as [<- | Hin]; simpl.
        -- apply mem_str_false in Em. exact Em.
        -- intros Hx. apply Hfresh in Hin as [Hin _].
           apply Hin. apply dict_set_keys. auto.
      * destruct (mem_str key (keys new)) eqn:Em; [lia |].
        assert (Hlen' : List.length new' =
                        List.length (dict_set key nvalue new) + List.length items) by lia.
        apply Heq in Hlen' as [Hnd Hfresh].
        destruct H0 as [<- | Hin]; simpl.
        -- congruence.
        -- apply Hfresh in Hin as [_ Hf]. exact Hf.
    + apply IH in H as (Hvalid & Hcov & Hle & Heq). repeat split.
      * intros k v sk' sv' [E | Hin] Hf.
        -- injection E as <- <-. congruence.
        -- eapply Hvalid; eauto.
      * intros x Hx. apply Hcov in Hx as [Hx | [Hx Hf]]; auto.
      * lia.
      * lia.
      * lia.
      * lia.
Qed.

(** Conversely, the loop succeeds and [new] gains one entry per item when
    every item is matched and valid and no key repeats. *)
Lemma validate_items_complete skeys : forall items new cov,
  (forall k v, In (k, v) items ->
     exists sk sv, find_skey k skeys = Some (sk, sv) /\ is_valid sv v = true) ->
  NoDup (keys items) ->
  (forall x, In x (keys items) -> ~ In x (keys new)) ->
  exists new' cov',
    validate_items skeys items new cov = Ok (new', cov') /\
    List.length new' = (List.length new + List.length items)%nat /\
    (forall x, In x (keys items) -> In x cov').
Proof.
  induction items as [|[key value] items IH]; simpl; intros new cov Hall Hnd Hfresh.
  - exists new, cov. repeat split; [lia | tauto].
  - destruct (Hall key value (or_introl eq_refl)) as (sk & sv & Ef & Hv).
    rewrite Ef. unfold is_valid in Hv.
    destruct (sv value) as [nvalue|] eqn:Ev; [| discriminate].
    inversion Hnd as [|? ? Hnotin Hnd']; subst.
    destruct (IH (dict_set key nvalue new) (skey_name sk :: cov))
      as (new' & cov' & Hrun & Hlen & Hcov).
    + intros k v Hin. apply Hall. auto.
    + exact Hnd'.
    + intros x Hx Hx'. apply dict_set_keys in Hx' as [-> | Hx'].
      * exact (Hnotin Hx).
      * exact (Hfresh x (or_intror Hx) Hx').
    + exists new', cov'. split; [exact Hrun |]. split.
      * rewrite Hlen, dict_set_length.
        assert (Em : mem_str key (keys new) = false).
        { apply mem_str_false. apply Hfresh. auto. }
        rewrite Em. lia.
      * intros x [<- | Hx]; [| auto].
        destruct (find_skey_name _ _ _ _ Ef) as [Hname _].
        pose proof (validate_items_ok _ _ _ _ _ _ Hrun) as _.
        clear - Hrun Hname.
        assert (Hmono : forall items new cov new' cov' x,
                  validate_items skeys items new cov = Ok (new', cov') ->
                  In x cov -> In x cov').
        { clear. induction items as [|[k v] items IH]; simpl; intros new cov new' cov' x H Hx.
          - injection H as <- <-. exact Hx.
          - destruct (find_skey k skeys) as [[sk sv]|]; [| eauto].
            destruct (sv v); [| discriminate].
            eapply IH; [exact H | right; exact Hx]. }
        eapply Hmono; [exact Hrun | left; exact Hname].
Qed.

Lemma filter_split_perm {A : Type} (f : A -> bool) (l : list A) :
  Permutation (filter (fun x => negb (f x)) l ++ filter f l) l.
Proof.
  induction l as [|a l IH]; simpl; [constructor |].
  destruct (f a); simpl.
  - apply Permutation_sym, Permutation_cons_app, Permutation_sym, IH.
  - constructor. exact IH.
Qed.

Lemma data_items_perm d : Permutation (data_items d) d.
Proof.
  apply (filter_split_perm (fun kv => isinstance (snd kv) Tdict)).
Qed.

(** What a dictionary schema with literal keys accepts: no key twice, every
    entry under a schema key whose schema validates the value, and every
    required key present. *)
Theorem Dict_valid_iff entries d :
  is_valid (Dict entries) (VDict d) = true <->
  NoDup (keys d) /\
  (forall k v, In (k, v) d ->
     exists sk sv, find_skey k (sorted_skeys entries) = Some (sk, sv) /\
                   is_valid sv v = true) /\
  (forall k, In k (required_keys entries) -> In k (keys d)).
Proof.
  pose proof (data_items_perm d) as Hperm.
  assert (Hlen : List.length (data_items d) = List.length d)
    by (apply Permutation_length, Hperm).
  assert (Hkeys : Permutation (keys (data_items d)) (keys d))
    by (apply Permutation_map, Hperm).
  unfold is_valid, Dict. simpl.
  destruct (validate_items (sorted_skeys entries) (data_items d) [] [])
    as [[new coverage]|e] eqn:Erun.
  - apply validate_items_ok in Erun as Hok.
    destruct Hok as (Hvalid & Hcov & Hle & Heq). simpl in Hle, Heq.
    destruct (filter (fun k => negb (mem_str k coverage)) (required_keys entries))
      as [|m missing] eqn:Emiss; simpl.
    + destruct (Nat.eqb (List.length new) (List.length d)) eqn:En; simpl.
      * apply Nat.eqb_eq in En. rewrite <- Hlen in En.
        destruct (Heq En) as [Hnd Hfresh].
        split; [intros _ | reflexivity]. repeat split.
        -- eapply Permutation_NoDup; eauto.
        -- intros k v Hin.
           assert (Hin' : In (k, v) (data_items d))
             by (eapply Permutation_in; [apply Permutation_sym |]; eauto).
           destruct (Hfresh k) as [_ Hf].
           { apply (in_map fst) in Hin'. exact Hin'. }
           destruct (find_skey k (sorted_skeys entries)) as [[sk sv]|] eqn:Ef;
             [| congruence].
           exists sk, sv. split; [reflexivity |]. eapply Hvalid; eauto.
        -- intros k Hk.
           assert (Hc : In k coverage).
           { apply mem_str_In. destruct (mem_str k coverage) eqn:Em; [reflexivity |].
             assert (Hf : In k (filter (fun k => negb (mem_str k coverage))
                                       (required_keys entries))).
             { apply filter_In. rewrite Em. auto. }
             rewrite Emiss in Hf. contradiction. }
           apply Hcov in Hc as [[] | [Hc _]].
           eapply Permutation_in; eauto.
      * split; [discriminate |]. intros (Hnd & Hall & _). exfalso.
        apply Nat.eqb_neq in En. apply En.
        destruct (validate_items_complete (sorted_skeys entries) (data_items d) [] [])
          as (new' & cov' & Hrun & Hlen' & _).
        -- intros k v Hin. apply Hall. eapply Permutation_in; eauto.
        -- eapply Permutation_NoDup; [apply Permutation_sym |]; eauto.
        -- intros x _ [].
        -- rewrite Erun in Hrun. injection Hrun as <- <-.
           simpl in Hlen'. lia.
    + split; [discriminate |]. intros (Hnd & Hall & Hreq). exfalso.
      assert (Hm : In m (filter (fun k => negb (mem_str k coverage))
                                (required_keys entries)))
        by (rewrite Emiss; left; reflexivity).
      apply filter_In in Hm as [Hm Hnc].
      apply negb_true_iff, mem_str_false in Hnc. apply Hnc.
      destruct (validate_items_complete (sorted_skeys entries) (data_items d) [] [])
        as (new' & cov' & Hrun & _ & Hcov').
      * intros k v Hin. apply Hall. eapply Permutation_in; eauto.
      * eapply Permutation_NoDup; [apply Permutation_sym |]; eauto.
      * intros x _ [].
      * rewrite Erun in Hrun. injection Hrun as <- <-.
        apply Hcov'. eapply Permutation_in; [apply Permutation_sym |]; eauto.
  - split; [discriminate |]. intros (Hnd & Hall & _). exfalso.
    destruct (validate_items_complete (sorted_skeys entries) (data_items d) [] [])
      as (new' & cov' & Hrun & _).
    + intros k v Hin. apply Hall. eapply Permutation_in; eauto.
    + eapply Permutation_NoDup; [apply Permutation_sym |]; eauto.
    + intros x _ [].
    + congruence.
Qed.

(** ** What the value schemas accept *)

Lemma valid_float v : is_valid (Type_ Tfloat) v = true <-> exists x, v = VFloat x.
Proof.
  destruct v; cbn; split; try discriminate; eauto;
    intros [x0 H]; discriminate.
Qed.

Lemma valid_int v : is_valid (Type_ Tint) v = true <-> exists n, v = VInt n.
Proof.
  destruct v; cbn; split; try discriminate; eauto;
    intros [x0 H]; discriminate.
Qed.

Lemma valid_dict v : is_valid (Type_ Tdict) v = true <-> exists d, v = VDict d.
Proof.
  destruct v; cbn; split; try discriminate; eauto;
    intros [x0 H]; discriminate.
Qed.

Lemma valid_bytes v : is_valid (Type_ Tbytes) v = true <-> exists b, v = VBytes b.
Proof.
  destruct v; cbn; split; try discriminate; eauto;
    intros [x0 H]; discriminate.
Qed.

Lemma valid_value v :
  is_valid (And [Type_ Tint; Callable in_0_1]) v = true <-> v = VInt 0 \/ v = VInt 1.
Proof.
  destruct v; try (cbn; split; [discriminate | intros [H | H]; discriminate]).
  destruct (Z.eq_dec n 0) as [-> | N0]; [cbn; tauto |].
  destruct (Z.eq_dec n 1) as [-> | N1]; [cbn; tauto |].
  assert (E : in_0_1 (VInt n) = Some false).
  { unfold in_0_1, py_eq_int.
    apply Z.eqb_neq in N0. apply Z.eqb_neq in N1. rewrite N0, N1. reflexivity. }
  unfold is_valid, And, Type_, Callable.
  change (isinstance (VInt n) Tint) with true.
  change (isinstance (VInt n) Tbool) with false.
  cbv [andb negb pytype_eqb]. rewrite E.
  split; [discriminate |]. intros [H | H]; injection H; lia.
Qed.

Lemma valid_nonempty_str v :
  is_valid (And [Type_ Tstr; Callable truthy_len]) v = true <->
  exists s, v = VStr s /\ s <> "".
Proof.
  destruct v; cbn; try (split; [discriminate | intros (s0 & H & _); discriminate]).
  destruct s; cbn.
  - split; [discriminate | intros (s0 & H & Hne); congruence].
  - split; [intros _ | reflexivity]. eexists. split; [reflexivity | discriminate].
Qed.

Lemma valid_name v :
  is_valid (And [Type_ Tstr; Callable truthy_len; Regex name_pattern]) v = true <->
  exists s, v = VStr s /\ s <> "" /\ search name_pattern s = true.
Proof.
  destruct v; try (cbn; split; [discriminate | intros (s0 & H & _); discriminate]).
  unfold is_valid, And, Type_, Callable, truthy_len, Regex. simpl.
  destruct s as [|c s]; simpl.
  - split; [discriminate | intros (s0 & H & Hne & _); congruence].
  - destruct (search name_pattern (String c s)) eqn:E.
    + split; [intros _ | reflexivity].
      eexists. repeat split; [discriminate | exact E].
    + split; [discriminate |]. intros (s0 & H & _ & Hs). congruence.
Qed.

Lemma valid_url v :
  is_valid (And [Type_ Tstr; Regex url_pattern]) v = true <->
  exists s, v = VStr s /\ search url_pattern s = true.
Proof.
  destruct v; try (cbn; split; [discriminate | intros (s0 & H & _); discriminate]).
  unfold is_valid, And, Type_, Regex. simpl.
  destruct (search url_pattern s) eqn:E.
  - split; [intros _ | reflexivity]. eauto.
  - split; [discriminate |]. intros (s0 & H & Hs). congruence.
Qed.

Lemma concept_item_ok_spec item :
  concept_item_ok item = Some true <-> concept_element_ok item.
Proof.
  unfold concept_item_ok, concept_element_ok.
  destruct (is_valid concept_schema item) eqn:Ev.
  - destruct item; try discriminate. simpl.
    destruct d as [|kv d]; simpl.
    + split; [discriminate | intros (d0 & H & Hne & _); congruence].
    + split; [intros _ | reflexivity].
      eexists. repeat split. discriminate.
  - split; [discriminate | intros (d0 & _ & _ & H); discriminate].
Qed.

Lemma py_all_spec l :
  py_all concept_item_ok l = Some true <-> Forall concept_element_ok l.
Proof.
  induction l as [|item l IH]; simpl.
  - split; [constructor | reflexivity].
  - destruct (concept_item_ok item) as [[|]|] eqn:E.
    + rewrite IH. split.
      * intros H. constructor; [apply concept_item_ok_spec, E | exact H].
      * intros H. inversion H; assumption.
    + split; [discriminate |]. intros H. inversion H as [|? ? Hi _]; subst.
      apply concept_item_ok_spec in Hi. congruence.
    + split; [discriminate |]. intros H. inversion H as [|? ? Hi _]; subst.
      apply concept_item_ok_spec in Hi. congruence.
Qed.

Lemma valid_concepts v :
  is_valid (And [Type_ Tlist; Callable all_concepts_ok]) v = true <->
  exists l, v = VList l /\ Forall concept_element_ok l.
Proof.
  destruct v; try (cbn; split; [discriminate | intros (l0 & H & _); discriminate]).
  unfold is_valid, And, Type_, Callable, all_concepts_ok. simpl.
  pose proof (py_all_spec l) as Hall.
  destruct (py_all concept_item_ok l) as [[|]|].
  - split; [intros _ | reflexivity]. exists l. split; [reflexivity | tauto].
  - split; [discriminate |]. intros (l0 & H & Hl).
    injection H as <-. apply Hall in Hl. discriminate.
  - split; [discriminate |]. intros (l0 & H & Hl).
    injection H as <-. apply Hall in Hl. discriminate.
Qed.

(** ** What the dictionary schemas of [get_schema] accept *)

Lemma dict_get_In k v d : dict_get k d = Some v -> In (k, v) d.
Proof.
  induction d as [|[k' v'] d IH]; simpl; [discriminate |].
  destruct (String.eqb k k') eqn:E.
  - apply String.eqb_eq in E. intros H. injection H as ->. left. congruence.
  - auto.
Qed.

Lemma In_dict_get k v d : NoDup (keys d) -> In (k, v) d -> dict_get k d = Some v.
Proof.
  induction d as [|[k' v'] d IH]; simpl; intros Hnd Hin; [contradiction |].
  inversion Hnd as [|? ? Hnotin Hnd']; subst.
  destruct Hin as [E | Hin].
  - injection E as -> ->. rewrite String.eqb_refl. reflexivity.
  - destruct (String.eqb k k') eqn:E.
    + apply String.eqb_eq in E. subst k'. exfalso. apply Hnotin.
      apply (in_map fst) in Hin. exact Hin.
    + auto.
Qed.

Lemma In_keys k d : In k (keys d) -> exists v, In (k, v) d.
Proof.
  unfold keys. rewrite in_map_iff. intros ([k' v] & E & Hin).
  simpl in E. subst. eauto.
Qed.

Lemma sorted_skeys_optional entries :
  forallb (fun e => is_optional (fst e)) entries = true ->
  sorted_skeys entries = entries.
Proof.
  unfold sorted_skeys. induction entries as [|e entries IH]; simpl; [reflexivity |].
  intros H. apply andb_true_iff in H as [He Hes]. rewrite He. simpl.
  specialize (IH Hes).
  assert (Hnone : filter (fun e => negb (is_optional (fst e))) entries = []).
  { clear IH. induction entries as [|e' entries IH']; simpl; [reflexivity |].
    simpl in Hes. apply andb_true_iff in Hes as [He' Hes']. rewrite He'. simpl. auto. }
  rewrite Hnone in *. simpl in *. congruence.
Qed.

Lemma sorted_skeys_required entries :
  forallb (fun e => negb (is_optional (fst e))) entries = true ->
  sorted_skeys entries = entries.
Proof.
  unfold sorted_skeys. induction entries as [|e entries IH]; simpl; [reflexivity |].
  intros H. apply andb_true_iff in H as [He Hes]. rewrite He.
  apply negb_true_iff in He. rewrite He. simpl. f_equal. auto.
Qed.

Ltac by_key k :=
  repeat match goal with
  | |- context [String.eqb ?lit k] =>
      let E := fresh "E" in
      destruct (String.eqb lit k) eqn:E;
      [apply String.eqb_eq in E; subst k | apply String.eqb_neq in E]
  end.

Lemma geo_entry_accepted k v :
  (exists sk sv,
     find_skey k [(Required "longitude", Type_ Tfloat);
                  (Required "latitude", Type_ Tfloat);
                  (Required "geo_limit", Type_ Tint)] = Some (sk, sv) /\
     is_valid sv v = true) <->
  (k = "longitude" /\ exists x, v = VFloat x) \/
  (k = "latitude" /\ exists y, v = VFloat y) \/
  (k = "geo_limit" /\ exists n, v = VInt n).
Proof.
  cbn [find_skey skey_name]. by_key k.
  - split.
    + intros (sk & sv & Ef & Hv). injection Ef as <- <-.
      apply valid_float in Hv. auto.
    + intros [[_ H] | [[H _] | [H _]]]; try discriminate.
      do 2 eexists. split; [reflexivity | apply valid_float, H].
  - split.
    + intros (sk & sv & Ef & Hv). injection Ef as <- <-.
      apply valid_float in Hv. auto.
    + intros [[H _] | [[_ H] | [H _]]]; try discriminate.
      do 2 eexists. split; [reflexivity | apply valid_float, H].
  - split.
    + intros (sk & sv & Ef & Hv). injection Ef as <- <-.
      apply valid_int in Hv. auto.
    + intros [[H _] | [[H _] | [_ H]]]; try discriminate.
      do 2 eexists. split; [reflexivity | apply valid_int, H].
  - split.
    + intros (sk & sv & Ef & _). discriminate.
    + intros [[H _] | [[H _] | [H _]]]; congruence.
Qed.

(** The geo point schema accepts exactly the objects with the three fields
    of the required types. *)
Theorem geo_point_valid_iff v :
  is_valid geo_point_schema v = true <-> spec_geo_point v.
Proof.
  unfold spec_geo_point. destruct v as [| | | | | | |d];
    try (split; [discriminate | intros (d0 & H & _); discriminate]).
  unfold geo_point_schema. rewrite Dict_valid_iff.
  rewrite sorted_skeys_required by reflexivity.
  change (required_keys _) with ["longitude"; "latitude"; "geo_limit"].
  split.
  - intros (Hnd & Hall & Hreq).
    assert (Hget : forall k, In k ["longitude"; "latitude"; "geo_limit"] ->
                   exists v, dict_get k d = Some v /\ In (k, v) d).
    { intros k Hk. apply Hreq, In_keys in Hk as [v Hin].
      exists v. split; [apply In_dict_get; assumption | exact Hin]. }
    exists d. split; [reflexivity |]. split; [| repeat split].
    + apply NoDup_Permutation; [exact Hnd | |].
      * repeat constructor; simpl; intuition discriminate.
      * intros k. split; [| apply Hreq].
        intros Hk. apply In_keys in Hk as [v Hin].
        apply Hall, geo_entry_accepted in Hin.
        simpl. intuition.
    + destruct (Hget "longitude") as (v & Eg & Hin); [simpl; auto |].
      apply Hall, geo_entry_accepted in Hin as [[_ [x ->]] | [[H _] | [H _]]];
        try discriminate. eauto.
    + destruct (Hget "latitude") as (v & Eg & Hin); [simpl; auto |].
      apply Hall, geo_entry_accepted in Hin as [[H _] | [[_ [x ->]] | [H _]]];
        try discriminate. eauto.
    + destruct (Hget "geo_limit") as (v & Eg & Hin); [simpl; auto |].
      apply Hall, geo_entry_accepted in Hin as [[H _] | [[H _] | [_ [x ->]]]];
        try discriminate. eauto.
  - intros (d0 & E & Hperm & [x Hx] & [y Hy] & [n Hn]). injection E as <-.
    assert (Hnd : NoDup (keys d)).
    { eapply Permutation_NoDup; [apply Permutation_sym, Hperm |].
      repeat constructor; simpl; intuition discriminate. }
    repeat split.
    + exact Hnd.
    + intros k v Hin. apply geo_entry_accepted.
      assert (Hk : In k ["longitude"; "latitude"; "geo_limit"]).
      { eapply Permutation_in; [exact Hperm |]. apply (in_map fst) in Hin. exact Hin. }
      apply In_dict_get in Hin; [| exact Hnd].
      simpl in Hk. destruct Hk as [<- | [<- | [<- | []]]].
      * left. split; [reflexivity |]. exists x. congruence.
      * right. left. split; [reflexivity |]. exists y. congruence.
      * right. right. split; [reflexivity |]. exists n. congruence.
    + intros k Hk. eapply Permutation_in; [apply Permutation_sym, Hperm | exact Hk].
Qed.

Lemma concept_field_accepted k v :
  (exists sk sv,
     find_skey k [(Optional "value", And [Type_ Tint; Callable in_0_1]);
                  (Optional "id", And [Type_ Tstr; Callable truthy_len]);
                  (Optional "language", And [Type_ Tstr; Callable truthy_len]);
                  (Optional "name",
                   And [Type_ Tstr; Callable truthy_len; Regex name_pattern])]
       = Some (sk, sv) /\
     is_valid sv v = true) <->
  accepted_concept_field (k, v).
Proof.
  unfold accepted_concept_field. cbn [find_skey skey_name]. by_key k.
  - split.
    + intros (sk & sv & Ef & Hv). injection Ef as <- <-.
      apply valid_value in Hv. auto.
    + intros [[_ H] | [[H _] | [[H _] | [H _]]]]; try discriminate.
      do 2 eexists. split; [reflexivity | apply valid_value, H].
  - split.
    + intros (sk & sv & Ef & Hv). injection Ef as <- <-.
      apply valid_nonempty_str in Hv. auto.
    + intros [[H _] | [[_ H] | [[H _] | [H _]]]]; try discriminate.
      do 2 eexists. split; [reflexivity | apply valid_nonempty_str, H].
  - split.
    + intros (sk & sv & Ef & Hv). injection Ef as <- <-.
      apply valid_nonempty_str in Hv. auto.
    + intros [[H _] | [[H _] | [[_ H] | [H _]]]]; try discriminate.
      do 2 eexists. split; [reflexivity | apply valid_nonempty_str, H].
  - split.
    + intros (sk & sv & Ef & Hv). injection Ef as <- <-.
      apply valid_name in Hv. auto 6.
    + intros [[H _] | [[H _] | [[H _] | [_ H]]]]; try discriminate.
      do 2 eexists. split; [reflexivity | apply valid_name, H].
  - split.
    + intros (sk & sv & Ef & _). discriminate.
    + intros [[H _] | [[H _] | [[H _] | [H _]]]]; congruence.
Qed.

(** The concept schema accepts the objects whose keys are distinct and each
    hold an accepted field; the empty object among them. *)
Theorem concept_valid_iff d :
  is_valid concept_schema (VDict d) = true <->
  NoDup (keys d) /\ Forall accepted_concept_field d.
Proof.
  unfold concept_schema. rewrite Dict_valid_iff.
  rewrite sorted_skeys_optional by reflexivity.
  change (required_keys _) with (@nil string).
  rewrite Forall_forall. split.
  - intros (Hnd & Hall & _). split; [exact Hnd |].
    intros [k v] Hin. apply concept_field_accepted, Hall, Hin.
  - intros (Hnd & Hall). repeat split; [exact Hnd | | intros k []].
    intros k v Hin. apply concept_field_accepted, (Hall (k, v)), Hin.
Qed.

Lemma item_entry_accepted k v :
  (exists sk sv,
     find_skey k [(Optional "image_url", And [Type_ Tstr; Regex url_pattern]);
                  (Optional "text_raw", And [Type_ Tstr; Callable truthy_len]);
                  (Optional "metadata", Type_ Tdict);
                  (Optional "image_bytes", Type_ Tbytes);
                  (Optional "geo_point", geo_point_schema);
                  (Optional "concepts", And [Type_ Tlist; Callable all_concepts_ok])]
       = Some (sk, sv) /\
     is_valid sv v = true) <->
  accepted_entry (k, v).
Proof.
  unfold accepted_entry. cbn [find_skey skey_name]. by_key k.
  - split.
    + intros (sk & sv & Ef & Hv). injection Ef as <- <-.
      apply valid_url in Hv. auto.
    + intros [[_ H] | [[H _] | [[H _] | [[H _] | [[H _] | [H _]]]]]]; try discriminate.
      do 2 eexists. split; [reflexivity | apply valid_url, H].
  - split.
    + intros (sk & sv & Ef & Hv). injection Ef as <- <-.
      apply valid_nonempty_str in Hv. auto.
    + intros [[H _] | [[_ H] | [[H _] | [[H _] | [[H _] | [H _]]]]]]; try discriminate.
      do 2 eexists. split; [reflexivity | apply valid_nonempty_str, H].
  - split.
    + intros (sk & sv & Ef & Hv). injection Ef as <- <-.
      apply valid_dict in Hv. auto.
    + intros [[H _] | [[H _] | [[_ H] | [[H _] | [[H _] | [H _]]]]]]; try discriminate.
      do 2 eexists. split; [reflexivity | apply valid_dict, H].
  - split.
    + intros (sk & sv & Ef & Hv). injection Ef as <- <-.
      apply valid_bytes in Hv. auto 6.
    + intros [[H _] | [[H _] | [[H _] | [[_ H] | [[H _] | [H _]]]]]]; try discriminate.
      do 2 eexists. split; [reflexivity | apply valid_bytes, H].
  - split.
    + intros (sk & sv & Ef & Hv). injection Ef as <- <-.
      apply geo_point_valid_iff in Hv. auto 7.
    + intros [[H _] | [[H _] | [[H _] | [[H _] | [[_ H] | [H _]]]]]]; try discriminate.
      do 2 eexists. split; [reflexivity | apply geo_point_valid_iff, H].
  - split.
    + intros (sk & sv & Ef & Hv). injection Ef as <- <-.
      apply valid_concepts in Hv. auto 8.
    + intros [[H _] | [[H _] | [[H _] | [[H _] | [[H _] | [_ H]]]]]]; try discriminate.
      do 2 eexists. split; [reflexivity | apply valid_concepts, H].
  - split.
    + intros (sk & sv & Ef & _). discriminate.
    + intros [[H _] | [[H _] | [[H _] | [[H _] | [[H _] | [H _]]]]]]; congruence.
Qed.

(** The item schema accepts the objects whose keys are distinct and each hold
    an accepted entry. *)
Theorem item_valid_iff d :
  is_valid rank_filter_item_schema (VDict d) = true <->
  NoDup (keys d) /\ Forall accepted_entry d.
Proof.
  unfold rank_filter_item_schema. rewrite Dict_valid_iff.
  rewrite sorted_skeys_optional by reflexivity.
  change (required_keys _) with (@nil string).
  rewrite Forall_forall. split.
  - intros (Hnd & Hall & _). split; [exact Hnd |].
    intros [k v] Hin. apply item_entry_accepted, Hall, Hin.
  - intros (Hnd & Hall). repeat split; [exact Hnd | | intros k []].
    intros k v Hin. apply item_entry_accepted, (Hall (k, v)), Hin.
Qed.

(** The schema of the arguments accepts the lists of accepted items. *)
Theorem get_schema_valid_iff v :
  is_valid get_schema v = true <->
  exists items, v = VList items /\
    Forall (fun item => is_valid rank_filter_item_schema item = true) items.
Proof.
  destruct v as [| | | | | |l|];
    try (split; [discriminate | intros (l0 & H & _); discriminate]).
  unfold is_valid, get_schema, Iterable. cbn [Type_ isinstance pytype_eqb andb negb].
  assert (H : forall l,
            (exists l', validate_each (Or [rank_filter_item_schema]) l = Ok l') <->
            Forall (fun item => is_valid rank_filter_item_schema item = true) l).
  { clear. induction l as [|item l IH]; simpl.
    - split; [constructor | eauto].
    - unfold Or at 1. simpl. unfold is_valid in *.
      destruct (rank_filter_item_schema item) as [item'|e] eqn:Ei.
      + destruct (validate_each (Or [rank_filter_item_schema]) l) as [l'|e].
        * split; [intros _ | eauto]. constructor; [rewrite Ei; reflexivity |].
          apply IH. eauto.
        * split.
          -- intros [l' Hl']. discriminate.
          -- intros HF. inversion HF as [|? ? _ HF']; subst.
             apply IH in HF' as [l' Hl']. discriminate.
      + split.
        * intros [l' Hl']. discriminate.
        * intros HF. inversion HF as [|? ? Hi _]; subst.
          rewrite Ei in Hi. discriminate. }
  specialize (H l).
  destruct (validate_each (Or [rank_filter_item_schema]) l) as [l'|e].
  - split; [intros _ | reflexivity]. exists l. split; [reflexivity |].
    apply H. eauto.
  - split; [discriminate |]. intros (l0 & E & HF). injection E as <-.
    apply H in HF as [l' Hl']. discriminate.
Qed.

(** ** The validator: claims *)

Lemma get_schema_item_valid items item :
  is_valid get_schema (VList items) = true -> In item items ->
  is_valid rank_filter_item_schema item = true.
Proof.
  intros H Hin. apply get_schema_valid_iff in H as (l & E & HF).
  injection E as <-. rewrite Forall_forall in HF. auto.
Qed.

Lemma item_entry_valid d kv :
  is_valid rank_filter_item_schema (VDict d) = true -> In kv d -> accepted_entry kv.
Proof.
  intros H Hin. apply item_valid_iff in H as [_ HF].
  rewrite Forall_forall in HF. auto.
Qed.







(** C4: the geo point schema accepts exactly the objects with the three
    fields [longitude] (float), [latitude] (float) and [geo_limit] (int), as
    the schema of the value, as the only key of the only item of a list, and
    as a necessary condition on any item of a valid list; an extra key is
    refused. *)
Theorem C4_geo_point_exact :
  (forall v, is_valid geo_point_schema v = true <-> spec_geo_point v) /\
  (forall v, is_valid get_schema (VList [VDict [("geo_point", v)]]) = true <->
             spec_geo_point v) /\
  (forall items d v,
     In (VDict d) items -> In ("geo_point", v) d ->
     is_valid get_schema (VList items) = true -> spec_geo_point v) /\
  (forall g k x,
     In (k, x) g -> ~ In k ["longitude"; "latitude"; "geo_limit"] ->
     is_valid geo_point_schema (VDict g) = false).
Proof.
  assert (Hitem : forall d v, In ("geo_point", v) d ->
            is_valid rank_filter_item_schema (VDict d) = true -> spec_geo_point v).
  { intros d v Hin Hv. pose proof (item_entry_valid _ _ Hv Hin) as Ha. simpl in Ha.
    destruct Ha as [[H _] | [[H _] | [[H _] | [[H _] | [[_ H] | [H _]]]]]];
      try discriminate. exact H. }
  split; [exact geo_point_valid_iff |]. split; [| split].
  - intros v. split.
    + intros Hv. apply (Hitem [("geo_point", v)] v); [simpl; auto |].
      eapply get_schema_item_valid; [exact Hv | simpl; auto].
    + intros Hg. apply get_schema_valid_iff. eexists. split; [reflexivity |].
      constructor; [| constructor]. apply item_valid_iff. split.
      * repeat constructor. simpl. tauto.
      * constructor; [| constructor]. simpl. auto 8.
  - intros items d v Hd Hin Hv. eapply Hitem; [exact Hin |].
    eapply get_schema_item_valid; eauto.
  - intros g k x Hin Hk.
    destruct (is_valid geo_point_schema (VDict g)) eqn:Ev; [| reflexivity].
    apply geo_point_valid_iff in Ev as (d0 & E & Hperm & _). injection E as <-.
    exfalso. apply Hk. eapply Permutation_in; [exact Hperm |].
    apply (in_map fst) in Hin. exact Hin.
Qed.

(** C5, at the input where the code leaves the claim: a concept whose name
    is [dog] followed by a newline, a character outside [[0-9A-Za-z_-]],
    passes the concept schema, passes the check on the elements of a
    [concepts] list, and passes the whole validation, because [$] also holds
    just before a final newline. *)
Theorem C5_name_with_final_newline_accepted :
  existsb (fun c => negb (alnum c || dash_underscore c))
          (list_ascii_of_string dog_newline) = true /\
  is_valid concept_schema (VDict [("name", VStr dog_newline)]) = true /\
  concept_item_ok (VDict [("name", VStr dog_newline)]) = Some true /\
  is_valid get_schema
    (VList [VDict [("concepts", VList [VDict [("name", VStr dog_newline)]])]]) = true.
Proof.
  repeat split; vm_compute; reflexivity.
Qed.

(** The parts of C5 that hold: a concept with only [value] 0 or 1 passes,
    [value] 2 fails, the empty concept fails. *)
Lemma concept_value_cases :
  concept_item_ok (VDict [("value", VInt 0)]) = Some true /\
  concept_item_ok (VDict [("value", VInt 1)]) = Some true /\
  concept_item_ok (VDict [("value", VInt 2)]) = Some false /\
  concept_item_ok (VDict []) = Some false.
Proof.
  repeat split; vm_compute; reflexivity.
Qed.

(** An accepted name is a name of the specification, possibly followed by
    one newline. *)
Lemma concept_name_accepted d s :
  is_valid concept_schema (VDict d) = true -> In ("name", VStr s) d ->
  spec_name (list_ascii_of_string s) \/
  exists front, list_ascii_of_string s = front ++ [newline] /\ spec_name front.
Proof.
  intros Hv Hin. apply concept_valid_iff in Hv as [_ HF].
  rewrite Forall_forall in HF. specialize (HF _ Hin). simpl in HF.
  destruct HF as [[H _] | [[H _] | [[H _] | [_ (s' & E & _ & Hs)]]]];
    try discriminate.
  injection E as <-. apply name_search_spec, Hs.
Qed.

(** The name part of C5, with the newline set apart: a name that begins
    with a dash or underscore, or that ends with one, or that has a
    character outside [[0-9A-Za-z_-]] other than a final newline, makes the
    concept fail. *)
Lemma concept_name_rejected d s :
  In ("name", VStr s) d ->
  (exists c rest, list_ascii_of_string s = c :: rest /\ dash_underscore c = true) \/
  (exists front c, list_ascii_of_string s = front ++ [c] /\ dash_underscore c = true) \/
  (exists front c rest,
     list_ascii_of_string s = front ++ c :: rest /\
     alnum c || dash_underscore c = false /\ (c <> newline \/ rest <> [])) ->
  is_valid concept_schema (VDict d) = false.
Proof.
  intros Hin Hbad.
  destruct (is_valid concept_schema (VDict d)) eqn:Ev; [| reflexivity].
  exfalso. pose proof (concept_name_accepted _ _ Ev Hin) as Hname.
  assert (Hchars : forall t c, spec_name t -> In c t -> alnum c || dash_underscore c = true).
  { intros t c Ht Hc. apply spec_name_chars in Ht.
    rewrite forallb_forall in Ht. auto. }
  destruct Hbad as [(c & rest & E & Hc) | [(front & c & E & Hc) | (front & c & rest & E & Hc & Hnl)]].
  - destruct Hname as [Hn | (fr & E' & Hn)].
    + apply spec_name_first in Hn as (c' & rest' & E' & Hc').
      rewrite E in E'. injection E' as <- <-.
      apply alnum_not_separator in Hc'. congruence.
    + apply spec_name_first in Hn as (c' & rest' & -> & Hc').
      rewrite E in E'. injection E' as <- _.
      apply alnum_not_separator in Hc'. congruence.
  - destruct Hname as [Hn | (fr & E' & Hn)].
    + apply spec_name_last in Hn as (fr' & c' & E' & Hc').
      rewrite E in E'. apply app_inj_tail in E' as [_ <-].
      apply alnum_not_separator in Hc'. congruence.
    + rewrite E in E'. apply app_inj_tail in E' as [_ ->].
      discriminate.
  - destruct Hname as [Hn | (fr & E' & Hn)].
    + assert (Hin' : In c (list_ascii_of_string s))
        by (rewrite E; apply in_or_app; simpl; auto).
      rewrite (Hchars _ _ Hn Hin') in Hc. discriminate.
    + destruct (exists_last (l := c :: rest)) as (mid & z & Ez); [discriminate |].
      rewrite E in E'. rewrite Ez, app_assoc in E'.
      apply app_inj_tail in E' as [<- ->].
      destruct mid as [|c' mid]; simpl in Ez.
      * injection Ez as -> ->. destruct Hnl; congruence.
      * injection Ez as <- _.
        assert (Hin' : In c (front ++ c :: mid))
          by (apply in_or_app; simpl; auto).
        rewrite (Hchars _ _ Hn Hin') in Hc. discriminate.
Qed.

(** ** Conforming items are accepted *)

Lemma prefix_append p : forall s,
  String.prefix p s = true -> exists rest, s = (p ++ rest)%string.
Proof.
  induction p as [|a p IH]; intros s.
  - intros _. exists s. reflexivity.
  - destruct s as [|b s]; simpl; [discriminate |].
    destruct (ascii_dec a b) as [<- | _]; [| discriminate].
    intros H. apply IH in H as [rest ->]. exists rest. reflexivity.
Qed.

Lemma list_ascii_of_string_append s t :
  list_ascii_of_string (s ++ t) = list_ascii_of_string s ++ list_ascii_of_string t.
Proof.
  induction s as [|a s IH]; simpl; [reflexivity | rewrite IH; reflexivity].
Qed.

Lemma url_search_prefix s :
  String.prefix "http://" s = true \/ String.prefix "https://" s = true ->
  search url_pattern s = true.
Proof.
  intros H. unfold search. simpl anchored_start. cbv iota.
  apply match_here_spec.
  destruct H as [H | H]; apply prefix_append in H as [rest ->];
    rewrite list_ascii_of_string_append.
  - exists (list_ascii_of_string "http://"), (list_ascii_of_string rest).
    repeat split. apply matches_decide. vm_compute. reflexivity.
  - exists (list_ascii_of_string "https://"), (list_ascii_of_string rest).
    repeat split. apply matches_decide. vm_compute. reflexivity.
Qed.

Lemma spec_name_nonempty s : spec_name (list_ascii_of_string s) -> s <> "".
Proof.
  intros H E. subst s. apply spec_name_first in H as (c & rest & E & _).
  discriminate.
Qed.

Lemma spec_concept_field_accepted kv :
  spec_concept_field kv -> accepted_concept_field kv.
Proof.
  destruct kv as [k v]. simpl.
  intros [[-> (s & -> & Hn)] | [[-> H] | [[-> H] | [-> H]]]]; auto.
  right. right. right. split; [reflexivity |]. exists s.
  repeat split; [apply spec_name_nonempty, Hn | apply name_search_spec; auto].
Qed.

Lemma spec_concept_accepted c : spec_concept c -> concept_element_ok c.
Proof.
  intros (d & -> & Hne & Hnd & HF). exists d. repeat split; [exact Hne |].
  apply concept_valid_iff. split; [exact Hnd |].
  eapply Forall_impl; [| exact HF]. apply spec_concept_field_accepted.
Qed.

Lemma spec_conforming_accepted kv : spec_conforming kv -> accepted_entry kv.
Proof.
  destruct kv as [k v]. simpl.
  intros [[-> (s & -> & H)] | [[-> H] | [[-> H] | [[-> H] | [[-> H] | [-> (l & -> & _ & HF)]]]]]];
    auto 8.
  - left. split; [reflexivity |]. exists s. split; [reflexivity |].
    apply url_search_prefix, H.
  - do 5 right. split; [reflexivity |]. exists l. split; [reflexivity |].
    eapply Forall_impl; [| exact HF]. apply spec_concept_accepted.
Qed.

Lemma accepted_entry_recognized k v : accepted_entry (k, v) -> In k recognized_keys.
Proof.
  simpl. intros [[-> _] | [[-> _] | [[-> _] | [[-> _] | [[-> _] | [-> _]]]]]]; auto 8.
Qed.

(** C6: a list of items that hold only recognized keys with conforming
    values passes validation; a list with an item that holds an
    unrecognized key fails it. *)
Theorem C6_recognized_keys_only :
  (forall items,
     Forall spec_query_item items -> is_valid get_schema (VList items) = true) /\
  (forall items d k v,
     In (VDict d) items -> In (k, v) d -> ~ In k recognized_keys ->
     is_valid get_schema (VList items) = false).
Proof.
  split.
  - intros items HF. apply get_schema_valid_iff. exists items.
    split; [reflexivity |]. eapply Forall_impl; [| exact HF].
    intros item (d & -> & Hnd & Hd). apply item_valid_iff. split; [exact Hnd |].
    eapply Forall_impl; [| exact Hd]. apply spec_conforming_accepted.
  - intros items d k v Hd Hin Hk.
    destruct (is_valid get_schema (VList items)) eqn:Ev; [| reflexivity].
    exfalso. apply Hk. apply (accepted_entry_recognized k v).
    eapply item_entry_valid; [| exact Hin].
    eapply get_schema_item_valid; eauto.
Qed.

(** The filters of the test suite are conforming items. *)
Example test_filters_conform :
  Forall spec_query_item
    [VDict [("geo_point",
             VDict [("longitude", VFloat (-29.0)%float);
                    ("latitude", VFloat 40.0%float);
                    ("geo_limit", VInt 10)])];
     VDict [("concepts", VList [VDict [("name", VStr "dog"); ("value", VInt 1)]])];
     VDict [("image_url", VStr "https://samples.clarifai.com/dog.tiff")]].
Proof.
  constructor; [| constructor; [| constructor; [| constructor]]].
  - eexists. split; [reflexivity |]. split.
    + constructor; [simpl; tauto | constructor].
    + constructor; [| constructor]. simpl. do 4 right. left.
      split; [reflexivity |]. eexists. split; [reflexivity |].
      split; [apply Permutation_refl |]. simpl.
      split; [eexists; reflexivity |].
      split; eexists; reflexivity.
  - eexists. split; [reflexivity |]. split.
    + constructor; [simpl; tauto | constructor].
    + constructor; [| constructor]. simpl. do 5 right.
      split; [reflexivity |]. eexists. split; [reflexivity |].
      split; [discriminate |].
      constructor; [| constructor].
      eexists. split; [reflexivity |]. split; [discriminate |]. split.
      * constructor; [simpl; intuition discriminate |].
        constructor; [simpl; tauto | constructor].
      * constructor; [| constructor; [| constructor]]; simpl.
        -- left. split; [reflexivity |]. eexists. split; [reflexivity |].
           apply name_segment; [discriminate | reflexivity].
        -- do 3 right. auto.
  - eexists. split; [reflexivity |]. split.
    + constructor; [simpl; tauto | constructor].
    + constructor; [| constructor]. simpl. left.
      split; [reflexivity |]. eexists. split; [reflexivity |].
      right. reflexivity.
Qed.

(** ** The session: claims *)

(** C7: the construction of a session raises exactly when the metric is
    neither [cosine] nor [euclidean]; [manhattan] is refused, [cosine] gives
    the distance [COSINE_DISTANCE] and [euclidean] gives
    [EUCLIDEAN_DISTANCE]. *)
Theorem C7_metric_gate stub uid aid top_k :
  (forall metric,
     (exists e, Search_init stub uid aid top_k metric = Raise e) <->
     (metric <> "cosine" /\ metric <> "euclidean")) /\
  Search_init stub uid aid top_k "manhattan" =
    Raise (UserError MetricShouldBeCosineOrEuclidean) /\
  (exists s, Search_init stub uid aid top_k "cosine" = Ok s /\
             metric_distance s = "COSINE_DISTANCE") /\
  (exists s, Search_init stub uid aid top_k "euclidean" = Ok s /\
             metric_distance s = "EUCLIDEAN_DISTANCE").
Proof.
  split; [| split; [reflexivity | split; eexists; split; reflexivity]].
  intros metric. unfold Search_init, mem_str. cbn [existsb lookup].
  destruct (String.eqb metric "cosine") eqn:Ec.
  - apply String.eqb_eq in Ec. subst. simpl. split.
    + intros [e H]. discriminate.
    + intros [H _]. congruence.
  - destruct (String.eqb metric "euclidean") eqn:Ee.
    + apply String.eqb_eq in Ee. subst. simpl. split.
      * intros [e H]. discriminate.
      * intros [_ H]. congruence.
    + apply String.eqb_neq in Ec, Ee. simpl. split; [auto | eauto].
Qed.

(** A session that [Search.__init__] returns holds the schema of
    [get_schema], the page size it was given and an empty data buffer. *)
Lemma Search_init_fields stub uid aid top_k metric s :
  Search_init stub uid aid top_k metric = Ok s ->
  rank_filter_schema s = get_schema /\
  default_page_size s = top_k /\
  STUB_PostAnnotationsSearches s = stub /\
  data_proto s = Data_empty.
Proof.
  unfold Search_init.
  destruct (negb (mem_str metric ["cosine"; "euclidean"])); [discriminate |].
  destruct (lookup metric _); [| discriminate].
  intros H. injection H as <-. repeat split.
Qed.

(** C9: the annotation built from the empty item is the empty annotation,
    whose data is unset; the session is left as it was. *)
Theorem C9_empty_item_wildcard st :
  _get_annot_proto [] st = (Ok Annotation_empty, st) /\
  data Annotation_empty = None.
Proof.
  split; reflexivity.
Qed.

(** C3: when the schema refuses the ranks or the filters, [query] raises a
    [UserError] whose message holds the [SchemaError] of the validator, and
    the state is the one before the call: no request has been sent. *)
Theorem C3_validation_error_before_any_request ranks filters st :
  is_valid (rank_filter_schema (self st)) ranks = false \/
  is_valid (rank_filter_schema (self st)) filters = false ->
  exists err,
    (rank_filter_schema (self st) ranks = Raise err \/
     rank_filter_schema (self st) filters = Raise err) /\
    query ranks filters st = (Raise (UserError (InvalidRankOrFilterInput err)), st) /\
    sent (snd (query ranks filters st)) = sent st.
Proof.
  intros H. unfold query, bind, get_self, validate_rank_filter, raise, is_valid in *.
  destruct (rank_filter_schema (self st) ranks) as [r|err] eqn:Er.
  - destruct H as [H | H]; [discriminate |].
    destruct (rank_filter_schema (self st) filters) as [f|err] eqn:Ef; [discriminate |].
    exists err. auto.
  - exists err. auto.
Qed.

Lemma C3_validation_error_before_any_request_witness :
  (is_valid (rank_filter_schema (self (test_state two_pages))) default_items = false \/
   is_valid (rank_filter_schema (self (test_state two_pages))) bad_filters = false) /\
  exists err,
    (rank_filter_schema (self (test_state two_pages)) default_items = Raise err \/
     rank_filter_schema (self (test_state two_pages)) bad_filters = Raise err) /\
    query default_items bad_filters (test_state two_pages) =
      (Raise (UserError (InvalidRankOrFilterInput err)), test_state two_pages) /\
    sent (snd (query default_items bad_filters (test_state two_pages))) =
      sent (test_state two_pages).
Proof.
  split.
  - right. vm_compute. reflexivity.
  - apply (C3_validation_error_before_any_request
             default_items bad_filters (test_state two_pages)).
    right. vm_compute. reflexivity.
Defined.

(** C10: [query] without arguments takes [[{}]] for the ranks and for the
    filters; both pass the schema, nothing is raised and nothing is sent,
    and the request data of the generator it returns holds one search with
    one rank and one filter, each around the empty annotation; so does the
    first request the generator will send. *)
Theorem C10_query_defaults st :
  rank_filter_schema (self st) = get_schema ->
  default_items = VList [VDict []] /\
  is_valid get_schema default_items = true /\
  (exists g,
     query default_items default_items st = (Ok g, st) /\
     g = GenCreated (STUB_PostAnnotationsSearches (self st))
           PostAnnotationsSearchesRequest
           {| rd_user_app_id := user_app_id (self st);
              rd_searches :=
                [ {| query_ :=
                       {| ranks := [ {| rank_annotation := Annotation_empty |} ];
                          filters := [ {| filter_annotation := Annotation_empty |} ] |};
                     metric := metric_distance (self st) |} ];
              rd_pagination := None |} /\
     pending_request g st =
       Some (STUB_PostAnnotationsSearches (self st),
             {| req_user_app_id := user_app_id (self st);
                req_searches :=
                  [ {| query_ :=
                         {| ranks := [ {| rank_annotation := Annotation_empty |} ];
                            filters := [ {| filter_annotation := Annotation_empty |} ] |};
                       metric := metric_distance (self st) |} ];
                req_pagination :=
                  Some {| page := 1; per_page := default_page_size (self st) |} |})).
Proof.
  intros Hs. split; [reflexivity |]. split; [vm_compute; reflexivity |].
  eexists. split; [| split; reflexivity].
  unfold query, bind, get_self, validate_rank_filter. rewrite Hs.
  reflexivity.
Qed.

Lemma C10_query_defaults_witness :
  rank_filter_schema (self (test_state two_pages)) = get_schema /\
  exists g,
    query default_items default_items (test_state two_pages) =
      (Ok g, test_state two_pages) /\
    g = GenCreated two_pages PostAnnotationsSearchesRequest
          {| rd_user_app_id := {| user_id := "user"; app_id := "app" |};
             rd_searches :=
               [ {| query_ :=
                      {| ranks := [ {| rank_annotation := Annotation_empty |} ];
                         filters := [ {| filter_annotation := Annotation_empty |} ] |};
                    metric := "EUCLIDEAN_DISTANCE" |} ];
             rd_pagination := None |}.
Proof.
  split; [reflexivity |].
  destruct (C10_query_defaults (test_state two_pages) eq_refl)
    as (_ & _ & g & Hq & Hg & _).
  exists g. split; [exact Hq | exact Hg].
Defined.

(** The schema error of the test suite: a geo point with an extra key is
    refused by [query] before anything is sent. *)
Example test_schema_error_extra_key :
  exists err,
    query default_items
      (VList [VDict [("geo_point",
                      VDict [("longitude", VFloat (-29.0)%float);
                             ("latitude", VFloat 40.0%float);
                             ("geo_limit", VInt 10);
                             ("extra", VInt 1)])]])
      (test_state two_pages)
    = (Raise (UserError (InvalidRankOrFilterInput err)), test_state two_pages).
Proof.
  eexists. vm_compute. reflexivity.
Qed.

(** ** The pagination generator: claims *)

(** One call of [next] on a generator that is not finished: one request, the
    status checked first, then the hits field. *)
Lemma next_pending g st endpoint request :
  pending_request g st = Some (endpoint, request) ->
  next g st =
  let st' := {| self := self st; sent := sent st ++ [request] |} in
  match endpoint (sent st) request with
  | Raise e => (Raised e, GenFinished, st')
  | Ok response =>
      if negb (Z.eqb (status_code response) SUCCESS)
      then (Raised (ListingFailed response), GenFinished, st')
      else if negb (has_hits response)
      then (StopIteration, GenFinished, st')
      else
        match g with
        | GenCreated e pm rd =>
            (Yield response,
             GenSuspended e pm rd
               {| page := 1; per_page := default_page_size (self st) |} 2, st')
        | GenSuspended e pm rd pg p =>
            (Yield response,
             GenSuspended e pm rd {| page := p; per_page := per_page pg |} (p + 1), st')
        | GenFinished => (StopIteration, GenFinished, st')
        end
  end.
Proof.
  destruct g as [e pm rd | e pm rd pg p |]; simpl; [| | discriminate].
  - intros H. injection H as <- <-.
    unfold loop_body, _grpc_request, page_request, has_hits. simpl.
    destruct (e (sent st) _); reflexivity.
  - intros H. injection H as <- <-.
    unfold loop_body, _grpc_request, page_request, has_hits. simpl.
    destruct (e (sent st) _); reflexivity.
Qed.

(** C8: when the response to the request of a call of [next] has a status
    code other than success, with or without hits, the call raises the
    exception that holds the response, after that one request; the
    generator is finished, a [for] loop over it ends there, and a finished
    generator sends nothing. *)
Theorem C8_non_success_aborts g st endpoint request response :
  pending_request g st = Some (endpoint, request) ->
  endpoint (sent st) request = Ok response ->
  status_code response <> SUCCESS ->
  next g st =
    (Raised (ListingFailed response), GenFinished,
     {| self := self st; sent := sent st ++ [request] |}) /\
  (forall fuel,
     iterate (S fuel) g st =
       ([], Failed (ListingFailed response),
        {| self := self st; sent := sent st ++ [request] |})) /\
  (forall st', next GenFinished st' = (StopIteration, GenFinished, st')).
Proof.
  intros Hp He Hs.
  assert (Hnext : next g st =
            (Raised (ListingFailed response), GenFinished,
             {| self := self st; sent := sent st ++ [request] |})).
  { rewrite (next_pending _ _ _ _ Hp). cbv zeta. rewrite He.
    apply Z.eqb_neq in Hs. rewrite Hs. reflexivity. }
  split; [exact Hnext |]. split; [| reflexivity].
  intros fuel. simpl. rewrite Hnext. reflexivity.
Qed.

Lemma C8_non_success_aborts_witness :
  pending_request (GenCreated failing PostAnnotationsSearchesRequest no_searches)
    (test_state failing)
  = Some (failing,
          page_request PostAnnotationsSearchesRequest no_searches 1 1) /\
  has_hits failed_page = true /\
  iterate 5 (GenCreated failing PostAnnotationsSearchesRequest no_searches)
    (test_state failing)
  = ([], Failed (ListingFailed failed_page),
     {| self := test_session failing;
        sent := [page_request PostAnnotationsSearchesRequest no_searches 1 1] |}).
Proof.
  split; [reflexivity |]. split; [reflexivity |].
  apply (C8_non_success_aborts
           (GenCreated failing PostAnnotationsSearchesRequest no_searches)
           (test_state failing) failing
           (page_request PostAnnotationsSearchesRequest no_searches 1 1)
           failed_page).
  - reflexivity.
  - reflexivity.
  - discriminate.
Defined.

Lemma page_requests_S pm rd k p n :
  page_requests pm rd k p (S n) =
  page_request pm rd k p :: page_requests pm rd k (p + 1) n.
Proof.
  unfold page_requests. simpl. rewrite Z.add_0_r. f_equal.
  rewrite <- seq_shift, map_map. apply map_ext.
  intros i. f_equal. lia.
Qed.

Lemma iterate_S fuel g st :
  iterate (S fuel) g st =
  match next g st with
  | (Yield response, g', st') =>
      match iterate fuel g' st' with
      | (pages, out, st'') => (response :: pages, out, st'')
      end
  | (StopIteration, _, st') => ([], Exhausted, st')
  | (Raised e, _, st') => ([], Failed e, st')
  end.
Proof.
  reflexivity.
Qed.

(** The run of a [for] loop over a suspended generator: the requests sent
    are those of consecutive pages with the page size unchanged, every page
    yielded is the successful response with hits to the request of its
    rank, the loop is exhausted by a successful response without hits, it
    fails on a request that cannot be made or on a response that is not
    successful, and it is left unfinished only when the calls allowed have
    all yielded a page. *)
Lemma iterate_suspended e pm rd k : forall fuel p pg st pages out st',
  per_page pg = k ->
  iterate fuel (GenSuspended e pm rd pg p) st = (pages, out, st') ->
  self st' = self st /\
  sent st' =
    sent st ++
    page_requests pm rd k p
      (List.length pages + match out with Unfinished _ => 0 | _ => 1 end) /\
  (forall i r, nth_error pages i = Some r ->
     e (sent st ++ page_requests pm rd k p i)
       (page_request pm rd k (p + Z.of_nat i)) = Ok r /\
     status_code r = SUCCESS /\ has_hits r = true) /\
  (out = Exhausted ->
   exists r,
     e (sent st ++ page_requests pm rd k p (List.length pages))
       (page_request pm rd k (p + Z.of_nat (List.length pages))) = Ok r /\
     status_code r = SUCCESS /\ has_hits r = false) /\
  (forall x, out = Failed x ->
     e (sent st ++ page_requests pm rd k p (List.length pages))
       (page_request pm rd k (p + Z.of_nat (List.length pages))) = Raise x \/
     exists r,
       e (sent st ++ page_requests pm rd k p (List.length pages))
         (page_request pm rd k (p + Z.of_nat (List.length pages))) = Ok r /\
       status_code r <> SUCCESS /\ x = ListingFailed r) /\
  (forall g', out = Unfinished g' ->
     List.length pages = fuel /\
     pending_request g' st' = Some (e, page_request pm rd k (p + Z.of_nat fuel))).
Proof.
  induction fuel as [|fuel IH]; intros p pg st pages out st' Hk Hrun.
  - simpl in Hrun. injection Hrun as <- <- <-. simpl.
    unfold page_requests. simpl. rewrite app_nil_r.
    split; [reflexivity |]. split; [reflexivity |].
    split; [intros [|i] r0 H0; discriminate |].
    split; [discriminate |]. split; [discriminate |].
    intros g' Hg. injection Hg as <-. split; [reflexivity |].
    simpl. rewrite Hk, Z.add_0_r. reflexivity.
  - rewrite iterate_S in Hrun.
    rewrite (next_pending _ _ e (page_request pm rd k p)) in Hrun
      by (simpl; rewrite Hk; reflexivity).
    cbv zeta in Hrun.
    destruct (e (sent st) (page_request pm rd k p)) as [r|x] eqn:Ee.
    + destruct (Z.eqb (status_code r) SUCCESS) eqn:Es; simpl negb in Hrun; cbv iota in Hrun.
      * apply Z.eqb_eq in Es.
        destruct (has_hits r) eqn:Eh; simpl negb in Hrun; cbv iota in Hrun.
        -- destruct (iterate fuel
                       (GenSuspended e pm rd {| page := p; per_page := per_page pg |} (p + 1))
                       {| self := self st; sent := sent st ++ [page_request pm rd k p] |})
             as [[pages1 out1] st1] eqn:Erec.
           injection Hrun as <- <- <-.
           apply IH in Erec as (Hself & Hsent & Hpages & Hex & Hfail & Hunf);
             [| exact Hk].
           simpl in Hself, Hsent, Hpages, Hex, Hfail.
           split; [exact Hself |]. split; [| split; [| split; [| split]]].
           ++ rewrite Hsent, <- app_assoc. simpl List.length.
              simpl Nat.add. rewrite page_requests_S. reflexivity.
           ++ intros [|i] r0 Hnth.
              ** simpl in Hnth. injection Hnth as <-.
                 unfold page_requests at 1. simpl. rewrite app_nil_r, Z.add_0_r.
                 auto.
              ** simpl in Hnth. apply Hpages in Hnth as (He & Hs & Hh).
                 rewrite page_requests_S.
                 rewrite <- app_assoc in He. simpl in He.
                 replace (p + Z.of_nat (S i))%Z with (p + 1 + Z.of_nat i)%Z by lia.
                 auto.
           ++ intros Hout. apply Hex in Hout as (r0 & He & Hs & Hh).
              exists r0. simpl List.length. rewrite page_requests_S.
              rewrite <- app_assoc in He. simpl in He.
              replace (p + Z.of_nat (S (List.length pages1)))%Z
                with (p + 1 + Z.of_nat (List.length pages1))%Z by lia.
              auto.
           ++ intros x Hout. simpl List.length. rewrite page_requests_S.
              replace (p + Z.of_nat (S (List.length pages1)))%Z
                with (p + 1 + Z.of_nat (List.length pages1))%Z by lia.
              apply Hfail in Hout as [He | (r0 & He & Hs & Hx)].
              ** left. rewrite <- app_assoc in He. simpl in He. exact He.
              ** right. exists r0. rewrite <- app_assoc in He. simpl in He. auto.
           ++ intros g' Hout. apply Hunf in Hout as (Hlen & Hpend).
              split; [simpl; congruence |].
              rewrite Hpend. do 3 f_equal. lia.
        -- injection Hrun as <- <- <-. simpl.
           unfold page_requests. simpl. rewrite app_nil_r, Z.add_0_r.
           split; [reflexivity |]. split; [reflexivity |].
           split; [intros [|i] r0 H0; discriminate |].
           split; [| split; discriminate].
           intros _. exists r. auto.
      * injection Hrun as <- <- <-. simpl.
        unfold page_requests. simpl. rewrite app_nil_r, Z.add_0_r.
        split; [reflexivity |]. split; [reflexivity |].
        split; [intros [|i] r0 H0; discriminate |].
        split; [discriminate |]. split; [| discriminate].
        intros x Hx. injection Hx as <-. right. exists r.
        apply Z.eqb_neq in Es. auto.
    + injection Hrun as <- <- <-. simpl.
      unfold page_requests. simpl. rewrite app_nil_r, Z.add_0_r.
      split; [reflexivity |]. split; [reflexivity |].
      split; [intros [|i] r0 H0; discriminate |].
      split; [discriminate |]. split; [| discriminate].
      intros x0 Hx. injection Hx as <-. left. exact Ee.
Qed.

(** A generator that has just been created runs like one suspended before
    page 1 with the page size of the session. *)
Lemma iterate_created e pm rd fuel st :
  iterate (S fuel) (GenCreated e pm rd) st =
  iterate (S fuel)
    (GenSuspended e pm rd {| page := 1; per_page := default_page_size (self st) |} 1)
    st.
Proof.
  reflexivity.
Qed.

(** C2, as stated, fails on the code: on a service whose pages 1 and 2
    contain hits and whose page 3 has none, but whose page 1 comes with a
    failure status, the loop yields no page and sends one request. *)
Lemma C2_failed_page_with_hits_not_yielded :
  let req := page_request PostAnnotationsSearchesRequest no_searches 1 in
  failed_first [] (req 1%Z) = Ok failed_page /\ has_hits failed_page = true /\
  failed_first [req 1%Z] (req 2%Z) = Ok hit_page /\ has_hits hit_page = true /\
  failed_first [req 1%Z; req 2%Z] (req 3%Z) = Ok empty_page /\
  has_hits empty_page = false /\
  iterate 10 (GenCreated failed_first PostAnnotationsSearchesRequest no_searches)
    (test_state failed_first)
  = ([], Failed (ListingFailed failed_page),
     {| self := test_session failed_first; sent := [req 1%Z] |}).
Proof.
  repeat split.
Qed.

(** C2, amended: for a page size that fits the unsigned 32-bit field of
    the pagination, a [for] loop over the generator of
    [list_all_pages_generator] sends the requests of pages 1, 2, 3, ... in
    this order, each with the page size of the session; every page it
    yields is the successful response with a hits field to the request of
    its rank; it is exhausted by the first successful response without a
    hits field, and it fails only on a request that cannot be made or on the
    first response whose status is not success, with the exception that
    holds this response; a loop stopped after a number of pages has yielded
    them all and has the request of the next page pending.  When the
    responses to pages 1, 2 and 3 are successful, the first two with hits
    and the third without, the loop yields exactly these two pages and sends
    exactly three requests. *)
Theorem C2_pagination :
  (forall e pm rd fuel st pages out st',
     uint32 (default_page_size (self st)) ->
     (Z.of_nat fuel < 2 ^ 32)%Z ->
     iterate fuel (GenCreated e pm rd) st = (pages, out, st') ->
     sent st' =
       sent st ++
       page_requests pm rd (default_page_size (self st)) 1
         (List.length pages + match out with Unfinished _ => 0 | _ => 1 end) /\
     (forall i r, nth_error pages i = Some r ->
        e (sent st ++ page_requests pm rd (default_page_size (self st)) 1 i)
          (page_request pm rd (default_page_size (self st)) (1 + Z.of_nat i)) = Ok r /\
        status_code r = SUCCESS /\ has_hits r = true) /\
     (out = Exhausted ->
      exists r,
        e (sent st ++
           page_requests pm rd (default_page_size (self st)) 1 (List.length pages))
          (page_request pm rd (default_page_size (self st))
             (1 + Z.of_nat (List.length pages))) = Ok r /\
        status_code r = SUCCESS /\ has_hits r = false) /\
     (forall x, out = Failed x ->
        e (sent st ++
           page_requests pm rd (default_page_size (self st)) 1 (List.length pages))
          (page_request pm rd (default_page_size (self st))
             (1 + Z.of_nat (List.length pages))) = Raise x \/
        exists r,
          e (sent st ++
             page_requests pm rd (default_page_size (self st)) 1 (List.length pages))
            (page_request pm rd (default_page_size (self st))
               (1 + Z.of_nat (List.length pages))) = Ok r /\
          status_code r <> SUCCESS /\ x = ListingFailed r) /\
     (forall g', out = Unfinished g' ->
        List.length pages = fuel /\
        pending_request g' st' =
          Some (e, page_request pm rd (default_page_size (self st))
                     (1 + Z.of_nat fuel)))) /\
  (forall e pm rd fuel st r1 r2 r3,
     uint32 (default_page_size (self st)) ->
     let req := page_request pm rd (default_page_size (self st)) in
     e (sent st) (req 1%Z) = Ok r1 ->
     e (sent st ++ [req 1%Z]) (req 2%Z) = Ok r2 ->
     e (sent st ++ [req 1%Z; req 2%Z]) (req 3%Z) = Ok r3 ->
     status_code r1 = SUCCESS -> has_hits r1 = true ->
     status_code r2 = SUCCESS -> has_hits r2 = true ->
     status_code r3 = SUCCESS -> has_hits r3 = false ->
     (3 <= fuel)%nat ->
     iterate fuel (GenCreated e pm rd) st =
       ([r1; r2], Exhausted,
        {| self := self st; sent := sent st ++ [req 1%Z; req 2%Z; req 3%Z] |})).
Proof.
  split.
  - intros e pm rd [|fuel] st pages out st' _ _ Hrun.
    + simpl in Hrun. injection Hrun as <- <- <-. simpl.
      unfold page_requests. simpl. rewrite app_nil_r.
      split; [reflexivity |].
      split; [intros [|i] r0 H0; discriminate |].
      split; [discriminate |]. split; [discriminate |].
      intros g' Hg. injection Hg as <-. split; reflexivity.
    + rewrite iterate_created in Hrun.
      apply (iterate_suspended e pm rd (default_page_size (self st))) in Hrun
        as (_ & Hsent & Hpages & Hex & Hfail & Hunf); [| reflexivity].
      auto 6.
  - intros e pm rd fuel st r1 r2 r3 _ req H1 H2 H3 Hs1 Hh1 Hs2 Hh2 Hs3 Hh3 Hfuel.
    destruct fuel as [|[|[|fuel]]]; try lia.
    rewrite iterate_S, (next_pending _ _ e (req 1%Z)) by reflexivity.
    cbv zeta. rewrite H1, Hs1, Z.eqb_refl, Hh1. cbv [negb].
    rewrite iterate_S, (next_pending _ _ e (req 2%Z)) by reflexivity.
    cbv zeta. cbn [sent self]. rewrite H2, Hs2, Z.eqb_refl, Hh2. cbv [negb].
    rewrite iterate_S, (next_pending _ _ e (req 3%Z)) by reflexivity.
    cbv zeta. cbn [sent self]. rewrite <- app_assoc. cbn [app].
    rewrite H3, Hs3, Z.eqb_refl, Hh3. cbv [negb].
    rewrite <- app_assoc. reflexivity.
Qed.

(** The scenario of C2 on the service [two_pages], and a loop over it
    stopped after one page. *)
Lemma C2_pagination_witness :
  uint32 (default_page_size (self (test_state two_pages))) /\
  iterate 10 (GenCreated two_pages PostAnnotationsSearchesRequest no_searches)
    (test_state two_pages)
  = ([hit_page; hit_page], Exhausted,
     {| self := test_session two_pages;
        sent := [page_request PostAnnotationsSearchesRequest no_searches 1 1;
                 page_request PostAnnotationsSearchesRequest no_searches 1 2;
                 page_request PostAnnotationsSearchesRequest no_searches 1 3] |}) /\
  (forall g',
     snd (fst (iterate 1 (GenCreated two_pages PostAnnotationsSearchesRequest no_searches)
                 (test_state two_pages))) = Unfinished g' ->
     pending_request g'
       (snd (iterate 1 (GenCreated two_pages PostAnnotationsSearchesRequest no_searches)
               (test_state two_pages)))
     = Some (two_pages, page_request PostAnnotationsSearchesRequest no_searches 1 2)).
Proof.
  assert (Hk : uint32 (default_page_size (self (test_state two_pages)))).
  { split; [discriminate | reflexivity]. }
  split; [exact Hk |]. split.
  - apply (proj2 C2_pagination two_pages PostAnnotationsSearchesRequest no_searches
             10%nat (test_state two_pages) hit_page hit_page empty_page Hk);
      try reflexivity.
    simpl. lia.
  - intros g' Hg.
    apply (proj1 C2_pagination two_pages PostAnnotationsSearchesRequest no_searches
             1%nat (test_state two_pages) [hit_page] (Unfinished g')
             (snd (iterate 1 (GenCreated two_pages PostAnnotationsSearchesRequest
                                no_searches) (test_state two_pages))) Hk).
    + reflexivity.
    + rewrite <- Hg. reflexivity.
    + reflexivity.
Defined.

(** ** The builder and the state *)

Lemma bind_run {A B : Type} (m : M A) (k : A -> M B) st :
  bind m k st =
  match m st with
  | (Ok a, st') => k a st'
  | (Raise e, st') => (Raise e, st')
  end.
Proof.
  reflexivity.
Qed.

Lemma update_data_proto_run f st :
  update_data_proto f st = (Ok tt, put_data (f (buffer st)) st).
Proof.
  reflexivity.
Qed.

Lemma buffer_put_data d st : buffer (put_data d st) = d.
Proof.
  reflexivity.
Qed.

Lemma put_data_twice d d' st : put_data d' (put_data d st) = put_data d' st.
Proof.
  reflexivity.
Qed.

Lemma fixed_part_put_data d st : fixed_part (put_data d st) = fixed_part st.
Proof.
  reflexivity.
Qed.

Lemma getitem_state value k st : snd (getitem value k st) = st.
Proof.
  unfold getitem. destruct value; try reflexivity.
  destruct (dict_get k d); reflexivity.
Qed.

Lemma add_concepts_stable {X : Type} (proj : State -> X) :
  (forall x, stable proj (add_concept x)) ->
  forall value st, proj (snd (add_concepts value st)) = proj st.
Proof.
  intros Hst. induction value as [|concept value IH]; intros st; [reflexivity |].
  simpl. destruct concept; try reflexivity.
  rewrite bind_run, update_data_proto_run. rewrite IH. apply Hst.
Qed.

Lemma set_field_untouched {X : Type} (proj : State -> X) key value st :
  untouched proj key -> proj (snd (set_field key value st)) = proj st.
Proof.
  intros (Himg & Hcon & Htxt & Hmeta & Hgeo). unfold set_field.
  destruct (String.eqb key "image_bytes") eqn:E1.
  { apply String.eqb_eq in E1. rewrite update_data_proto_run. apply Himg. auto. }
  destruct (String.eqb key "image_url") eqn:E2.
  { apply String.eqb_eq in E2. rewrite update_data_proto_run. apply Himg. auto. }
  destruct (String.eqb key "concepts") eqn:E3.
  { apply String.eqb_eq in E3. destruct (elements_of value); [| reflexivity].
    apply add_concepts_stable. auto. }
  destruct (String.eqb key "text_raw") eqn:E4.
  { apply String.eqb_eq in E4. destruct value; try reflexivity.
    rewrite update_data_proto_run. apply Htxt. auto. }
  destruct (String.eqb key "metadata") eqn:E5.
  { apply String.eqb_eq in E5. destruct value; try reflexivity.
    rewrite update_data_proto_run. apply Hmeta. auto. }
  destruct (String.eqb key "geo_point") eqn:E6; [| reflexivity].
  apply String.eqb_eq in E6.
  rewrite bind_run.
  pose proof (getitem_state value "longitude" st) as S1.
  destruct (getitem value "longitude" st) as [[lon|e] st1]; simpl in S1; subst st1;
    [| reflexivity].
  rewrite bind_run.
  pose proof (getitem_state value "latitude" st) as S2.
  destruct (getitem value "latitude" st) as [[lat|e] st2]; simpl in S2; subst st2;
    [| reflexivity].
  rewrite bind_run.
  pose proof (getitem_state value "geo_limit" st) as S3.
  destruct (getitem value "geo_limit" st) as [[lim|e] st3]; simpl in S3; subst st3;
    [| reflexivity].
  rewrite update_data_proto_run. apply Hgeo. auto.
Qed.

Lemma fill_untouched {X : Type} (proj : State -> X) : forall items st,
  (forall k, In k (keys items) -> untouched proj k) ->
  proj (snd (fill_data_proto items st)) = proj st.
Proof.
  induction items as [|[key value] items IH]; intros st Hk; [reflexivity |].
  simpl. rewrite bind_run.
  pose proof (set_field_untouched proj key value st (Hk key (or_introl eq_refl))) as Hs.
  destruct (set_field key value st) as [[[]|e] st1]; simpl in Hs.
  - rewrite IH; [exact Hs |]. intros k Hin. apply Hk. right. exact Hin.
  - exact Hs.
Qed.

Lemma blind_untouched {X : Type} (proj : State -> X) key :
  (forall d st, proj (put_data d st) = proj st) -> untouched proj key.
Proof.
  intros H. unfold untouched, stable. repeat split; intros; apply H.
Qed.

Lemma get_annot_proto_run kwargs st :
  _get_annot_proto kwargs st =
  match kwargs with
  | [] => (Ok Annotation_empty, st)
  | _ :: _ =>
      match fill_data_proto kwargs (put_data Data_empty st) with
      | (Ok _, st') => (Ok {| data := Some (buffer st') |}, st')
      | (Raise e, st') => (Raise e, st')
      end
  end.
Proof.
  destruct kwargs as [|kv kwargs]; [reflexivity |].
  unfold _get_annot_proto. rewrite bind_run.
  change (set_data_proto Data_empty st)
    with (@Ok exn unit tt, put_data Data_empty st).
  cbv iota beta. rewrite bind_run.
  destruct (fill_data_proto (kv :: kwargs) (put_data Data_empty st)) as [[[]|e] st'];
    reflexivity.
Qed.

Lemma buffer_only_ret {A : Type} (a : A) : buffer_only (ret a).
Proof.
  intros st1 st2 H. split; [reflexivity | exact H].
Qed.

Lemma buffer_only_raise {A : Type} (e : exn) : buffer_only (@raise A e).
Proof.
  intros st1 st2 H. split; [reflexivity | exact H].
Qed.

Lemma buffer_only_bind {A B : Type} (m : M A) (k : A -> M B) :
  buffer_only m -> (forall a, buffer_only (k a)) -> buffer_only (bind m k).
Proof.
  intros Hm Hk st1 st2 H. rewrite !bind_run.
  destruct (Hm st1 st2 H) as [Hr Hb].
  destruct (m st1) as [[a1|e1] st1'], (m st2) as [[a2|e2] st2']; simpl in Hr, Hb;
    try discriminate.
  - injection Hr as <-. apply Hk, Hb.
  - injection Hr as <-. split; [reflexivity | exact Hb].
Qed.

Lemma buffer_only_update f : buffer_only (update_data_proto f).
Proof.
  intros st1 st2 H. rewrite !update_data_proto_run. simpl.
  rewrite !buffer_put_data, H. auto.
Qed.

Lemma buffer_only_getitem value k : buffer_only (getitem value k).
Proof.
  intros st1 st2 H. rewrite !getitem_state. split; [| exact H].
  unfold getitem. destruct value; try reflexivity.
  destruct (dict_get k d); reflexivity.
Qed.

Lemma buffer_only_add_concepts value : buffer_only (add_concepts value).
Proof.
  induction value as [|concept value IH]; simpl.
  - apply buffer_only_ret.
  - destruct concept; try apply buffer_only_raise.
    apply buffer_only_bind; [apply buffer_only_update | intros _; exact IH].
Qed.

Lemma buffer_only_set_field key value : buffer_only (set_field key value).
Proof.
  unfold set_field.
  destruct (String.eqb key "image_bytes"); [apply buffer_only_update |].
  destruct (String.eqb key "image_url"); [apply buffer_only_update |].
  destruct (String.eqb key "concepts").
  { destruct (elements_of value); [| apply buffer_only_raise].
    apply buffer_only_add_concepts. }
  destruct (String.eqb key "text_raw").
  { destruct value; try apply buffer_only_raise. apply buffer_only_update. }
  destruct (String.eqb key "metadata").
  { destruct value; try apply buffer_only_raise. apply buffer_only_update. }
  destruct (String.eqb key "geo_point"); [| apply buffer_only_raise].
  apply buffer_only_bind; [apply buffer_only_getitem | intros lon].
  apply buffer_only_bind; [apply buffer_only_getitem | intros lat].
  apply buffer_only_bind; [apply buffer_only_getitem | intros lim].
  apply buffer_only_update.
Qed.

Lemma buffer_only_fill items : buffer_only (fill_data_proto items).
Proof.
  induction items as [|[key value] items IH]; simpl.
  - apply buffer_only_ret.
  - apply buffer_only_bind; [apply buffer_only_set_field | intros _; exact IH].
Qed.

(** The annotation built for an item does not depend on the state the
    builder starts in. *)
Lemma get_annot_proto_any_state kwargs st1 st2 :
  fst (_get_annot_proto kwargs st1) = fst (_get_annot_proto kwargs st2).
Proof.
  rewrite !get_annot_proto_run. destruct kwargs as [|kv kwargs]; [reflexivity |].
  destruct (buffer_only_fill (kv :: kwargs)
              (put_data Data_empty st1) (put_data Data_empty st2) eq_refl)
    as [Hr Hb].
  destruct (fill_data_proto (kv :: kwargs) (put_data Data_empty st1)) as [[[]|e1] st1'],
           (fill_data_proto (kv :: kwargs) (put_data Data_empty st2)) as [[[]|e2] st2'];
    simpl in *; congruence.
Qed.

Lemma get_annot_proto_fixed kwargs st :
  fixed_part (snd (_get_annot_proto kwargs st)) = fixed_part st.
Proof.
  rewrite get_annot_proto_run. destruct kwargs as [|kv kwargs]; [reflexivity |].
  pose proof (fill_untouched fixed_part (kv :: kwargs) (put_data Data_empty st)) as H.
  destruct (fill_data_proto (kv :: kwargs) (put_data Data_empty st)) as [[[]|e] st'];
    simpl in *; rewrite H; try reflexivity;
    intros k _; apply blind_untouched; reflexivity.
Qed.

(** ** The exceptions of the builder's own lines *)

Lemma getitem_found g k v st :
  dict_get k g = Some v -> getitem (VDict g) k st = (Ok v, st).
Proof.
  intros H. unfold getitem. rewrite H. reflexivity.
Qed.

Lemma getitem_ok value k v st st' :
  getitem value k st = (Ok v, st') ->
  st' = st /\ exists g, value = VDict g /\ dict_get k g = Some v.
Proof.
  unfold getitem. destruct value; try discriminate.
  destruct (dict_get k d) eqn:E; [| discriminate].
  intros H. injection H as <- <-. eauto.
Qed.

Lemma getitem_raises value k st e :
  fst (getitem value k st) = Raise e ->
  e = PyTypeError \/
  (e = PyKeyError k /\ exists g, value = VDict g /\ dict_get k g = None).
Proof.
  unfold getitem.
  destruct value as [| | | | | | |g];
    try (intros H; injection H as <-; left; reflexivity).
  destruct (dict_get k g) eqn:E; [discriminate |].
  intros H. injection H as <-. right. eauto.
Qed.

Lemma add_concepts_raises : forall l st e,
  fst (add_concepts l st) = Raise e -> e = PyTypeError.
Proof.
  induction l as [|c l IH]; intros st e H; [discriminate |].
  simpl in H.
  destruct c; try (injection H as <-; reflexivity).
  rewrite bind_run, update_data_proto_run in H. eapply IH, H.
Qed.

(** What a turn of the loop can raise by itself: a [TypeError] or an
    [AttributeError] for a value of the wrong type, the [UserError] of the
    last branch for a key that is not supported, or the [KeyError] of a
    [geo_point] without one of its three keys. *)
Lemma set_field_raises key value st e :
  fst (set_field key value st) = Raise e ->
  (e = PyTypeError \/ e = PyAttributeError) \/
  (e = UserError (KwargsKeyNotSupported key) /\ ~ In key recognized_keys) \/
  (key = "geo_point" /\
   exists g k, value = VDict g /\ dict_get k g = None /\ e = PyKeyError k /\
               In k ["longitude"; "latitude"; "geo_limit"]).
Proof.
  unfold set_field.
  destruct (String.eqb key "image_bytes") eqn:E1; [discriminate |].
  destruct (String.eqb key "image_url") eqn:E2; [discriminate |].
  destruct (String.eqb key "concepts") eqn:E3.
  { destruct (elements_of value) as [l|].
    - intros H. left. left. eapply add_concepts_raises, H.
    - intros H. injection H as <-. left. left. reflexivity. }
  destruct (String.eqb key "text_raw") eqn:E4.
  { destruct value; try discriminate;
      intros H; injection H as <-; left; left; reflexivity. }
  destruct (String.eqb key "metadata") eqn:E5.
  { destruct value; try discriminate;
      intros H; injection H as <-; left; right; reflexivity. }
  destruct (String.eqb key "geo_point") eqn:E6.
  { apply String.eqb_eq in E6. subst key. rewrite bind_run.
    destruct (getitem value "longitude" st) as [[lon|e1] st1] eqn:G1.
    - apply getitem_ok in G1 as (-> & g & -> & Hlon). rewrite bind_run.
      destruct (getitem (VDict g) "latitude" st) as [[lat|e2] st2] eqn:G2.
      + apply getitem_ok in G2 as (-> & _). rewrite bind_run.
        destruct (getitem (VDict g) "geo_limit" st) as [[lim|e3] st3] eqn:G3;
          [discriminate |].
        intros H. injection H as <-.
        pose proof (getitem_raises (VDict g) "geo_limit" st e3) as Hr.
        rewrite G3 in Hr. destruct (Hr eq_refl) as [-> | (-> & g' & Eg & Hn)];
          [left; left; reflexivity |].
        injection Eg as <-. right. right. split; [reflexivity |].
        exists g, "geo_limit". simpl. auto 8.
      + intros H. injection H as <-.
        pose proof (getitem_raises (VDict g) "latitude" st e2) as Hr.
        rewrite G2 in Hr. destruct (Hr eq_refl) as [-> | (-> & g' & Eg & Hn)];
          [left; left; reflexivity |].
        injection Eg as <-. right. right. split; [reflexivity |].
        exists g, "latitude". simpl. auto 8.
    - intros H. injection H as <-.
      pose proof (getitem_raises value "longitude" st e1) as Hr.
      rewrite G1 in Hr. destruct (Hr eq_refl) as [-> | (-> & g & -> & Hn)];
        [left; left; reflexivity |].
      right. right. split; [reflexivity |].
      exists g, "longitude". simpl. auto 8. }
  intros H. injection H as <-. right. left. split; [reflexivity |].
  apply String.eqb_neq in E1, E2, E3, E4, E5, E6.
  simpl. intros [<- | [<- | [<- | [<- | [<- | [<- | []]]]]]]; congruence.
Qed.

Lemma fill_raises : forall items st e,
  fst (fill_data_proto items st) = Raise e ->
  exists key value st1,
    In (key, value) items /\ fst (set_field key value st1) = Raise e.
Proof.
  induction items as [|[k v] items IH]; intros st e H; [discriminate |].
  simpl in H. rewrite bind_run in H.
  destruct (set_field k v st) as [[[]|e1] st1] eqn:Es.
  - apply IH in H as (key & value & st2 & Hin & Hr).
    exists key, value, st2. split; [right; exact Hin | exact Hr].
  - injection H as <-. exists k, v, st. split; [left; reflexivity |].
    rewrite Es. reflexivity.
Qed.

(** An exception of the builder is that of a turn of its loop. *)
Lemma get_annot_proto_raises kwargs st e :
  fst (_get_annot_proto kwargs st) = Raise e ->
  exists key value st1,
    In (key, value) kwargs /\ fst (set_field key value st1) = Raise e.
Proof.
  rewrite get_annot_proto_run. destruct kwargs as [|kv kwargs]; [discriminate |].
  intros H.
  destruct (fill_data_proto (kv :: kwargs) (put_data Data_empty st))
    as [[[]|e1] st1] eqn:Ef; [discriminate |].
  injection H as <-.
  apply (fill_raises (kv :: kwargs) (put_data Data_empty st)).
  rewrite Ef. reflexivity.
Qed.

Lemma set_field_unsupported key value st :
  ~ In key recognized_keys ->
  set_field key value st = (Raise (UserError (KwargsKeyNotSupported key)), st).
Proof.
  intros Hk. unfold set_field.
  repeat match goal with
  | |- context [String.eqb key ?lit] =>
      let E := fresh "E" in
      destruct (String.eqb key lit) eqn:E;
      [apply String.eqb_eq in E; subst key; exfalso; apply Hk; simpl; tauto |]
  end.
  reflexivity.
Qed.

Lemma fill_unsupported : forall items key value st,
  In (key, value) items -> ~ In key recognized_keys ->
  exists e, fst (fill_data_proto items st) = Raise e.
Proof.
  induction items as [|[k v] items IH]; intros key value st Hin Hk; [contradiction |].
  simpl. rewrite bind_run. destruct Hin as [E | Hin].
  - injection E as -> ->. rewrite set_field_unsupported by exact Hk. simpl. eauto.
  - destruct (set_field k v st) as [[[]|e] st1]; [| simpl; eauto].
    eapply IH; eauto.
Qed.

(** ** What the builder writes into the annotation *)

Lemma fill_app : forall l1 l2 st,
  fill_data_proto (l1 ++ l2) st =
  match fill_data_proto l1 st with
  | (Ok _, st1) => fill_data_proto l2 st1
  | (Raise e, st1) => (Raise e, st1)
  end.
Proof.
  induction l1 as [|[k v] l1 IH]; intros l2 st; [reflexivity |].
  simpl. rewrite !bind_run.
  destruct (set_field k v st) as [[[]|e] st1]; [apply IH | reflexivity].
Qed.

Ltac untouched_by_others :=
  unfold untouched, stable; repeat split; intros; subst;
  first [reflexivity | congruence | tauto].

(** The last entry that writes a part of the buffer decides that part. *)
Lemma annot_last_write {X : Type} (proj : State -> X) l1 key value l2 st a st' :
  (forall k, In k (keys l2) -> untouched proj k) ->
  _get_annot_proto (l1 ++ (key, value) :: l2) st = (Ok a, st') ->
  data a = Some (buffer st') /\
  exists st1 st2,
    fill_data_proto l1 (put_data Data_empty st) = (Ok tt, st1) /\
    set_field key value st1 = (Ok tt, st2) /\
    proj st' = proj st2.
Proof.
  intros Hl2 Hrun. rewrite get_annot_proto_run in Hrun.
  destruct (l1 ++ (key, value) :: l2) as [|kv kwargs] eqn:Ek.
  { destruct l1; discriminate. }
  rewrite <- Ek in Hrun. clear Ek kv kwargs.
  rewrite fill_app in Hrun.
  destruct (fill_data_proto l1 (put_data Data_empty st)) as [[[]|e] st1] eqn:E1;
    [| discriminate].
  simpl in Hrun. rewrite bind_run in Hrun.
  destruct (set_field key value st1) as [[[]|e] st2] eqn:E2; [| discriminate].
  pose proof (fill_untouched proj l2 st2 Hl2) as Hp.
  destruct (fill_data_proto l2 st2) as [[[]|e] st3]; [| discriminate].
  injection Hrun as <- <-. simpl in Hp.
  split; [reflexivity |]. exists st1, st2. auto.
Qed.

Lemma NoDup_keys_split l1 (key : string) (value : pyval) l2 :
  NoDup (keys (l1 ++ (key, value) :: l2)) ->
  ~ In key (keys l1) /\ ~ In key (keys l2).
Proof.
  unfold keys. rewrite map_app. simpl. intros H.
  apply NoDup_remove_2 in H. split; intros Hin; apply H, in_or_app; auto.
Qed.

Lemma set_field_image key value st :
  key = "image_bytes" \/ key = "image_url" ->
  set_field key value st =
  (Ok tt, put_data (with_image (image_of key value) (buffer st)) st).
Proof.
  intros [-> | ->]; reflexivity.
Qed.

Lemma set_field_text value st st' :
  set_field "text_raw" value st = (Ok tt, st') ->
  exists s, value = VStr s /\
    st' = put_data (with_text (text_from_bytes (VBytes (list_ascii_of_string s)))
                      (buffer st)) st.
Proof.
  unfold set_field. simpl. destruct value; try discriminate.
  rewrite update_data_proto_run. intros H. injection H as <-. eauto.
Qed.

Lemma set_field_metadata value st st' :
  set_field "metadata" value st = (Ok tt, st') ->
  exists m, value = VDict m /\
    st' = put_data (with_metadata (Struct_update m) (buffer st)) st.
Proof.
  unfold set_field. simpl. destruct value; try discriminate.
  rewrite update_data_proto_run. intros H. injection H as <-. eauto.
Qed.

Lemma set_field_geo value st st' :
  set_field "geo_point" value st = (Ok tt, st') ->
  exists g lon lat lim,
    value = VDict g /\
    dict_get "longitude" g = Some lon /\
    dict_get "latitude" g = Some lat /\
    dict_get "geo_limit" g = Some lim /\
    st' = put_data (with_geo (_get_geo_point_proto lon lat lim) (buffer st)) st.
Proof.
  unfold set_field. simpl. rewrite bind_run.
  destruct (getitem value "longitude" st) as [[lon|e] st1] eqn:E1; [| discriminate].
  apply getitem_ok in E1 as (-> & g & -> & Hlon).
  rewrite bind_run.
  destruct (getitem (VDict g) "latitude" st) as [[lat|e] st2] eqn:E2; [| discriminate].
  apply getitem_ok in E2 as (-> & g2 & Eg2 & Hlat). injection Eg2 as <-.
  rewrite bind_run.
  destruct (getitem (VDict g) "geo_limit" st) as [[lim|e] st3] eqn:E3; [| discriminate].
  apply getitem_ok in E3 as (-> & g3 & Eg3 & Hlim). injection Eg3 as <-.
  rewrite update_data_proto_run. intros H. injection H as <-.
  exists g, lon, lat, lim. auto.
Qed.

Lemma add_concepts_ok : forall l st st',
  add_concepts l st = (Ok tt, st') ->
  exists cs, l = map VDict cs /\
    concepts (buffer st') = concepts (buffer st) ++ map Concept_of cs.
Proof.
  induction l as [|c l IH]; intros st st' H.
  - injection H as <-. exists []. rewrite app_nil_r. auto.
  - simpl in H. destruct c; try discriminate.
    rewrite bind_run, update_data_proto_run in H.
    apply IH in H as (cs & -> & Hc). exists (d :: cs). split; [reflexivity |].
    rewrite Hc, buffer_put_data. simpl. rewrite <- app_assoc. reflexivity.
Qed.

Lemma set_field_concepts value st st' :
  set_field "concepts" value st = (Ok tt, st') ->
  exists cs, elements_of value = Some (map VDict cs) /\
    concepts (buffer st') = concepts (buffer st) ++ map Concept_of cs.
Proof.
  unfold set_field. simpl. destruct (elements_of value) as [l|]; [| discriminate].
  intros H. apply add_concepts_ok in H as (cs & -> & Hc). eauto.
Qed.

(** ** The builder: properties *)

Lemma call_get_annot_proto_bound kwargs st :
  ~ In "self" (keys kwargs) ->
  call_get_annot_proto (VDict kwargs) st = _get_annot_proto kwargs st.
Proof.
  intros Hno. unfold call_get_annot_proto.
  destruct (mem_str "self" (keys kwargs)) eqn:E; [| reflexivity].
  exfalso. apply Hno. unfold mem_str in E.
  apply existsb_exists in E as (k & Hin & Hk).
  apply String.eqb_eq in Hk. subst k. exact Hin.
Qed.

Lemma call_get_annot_proto_self kwargs st :
  In "self" (keys kwargs) ->
  call_get_annot_proto (VDict kwargs) st = (Raise PyTypeError, st).
Proof.
  intros Hin. unfold call_get_annot_proto.
  destruct (mem_str "self" (keys kwargs)) eqn:E; [reflexivity |].
  exfalso. unfold mem_str in E.
  assert (H : existsb (String.eqb "self") (keys kwargs) = true).
  { apply existsb_exists. exists "self". split; [exact Hin | apply String.eqb_refl]. }
  congruence.
Qed.

Lemma accepted_keys_bound kwargs :
  Forall accepted_entry kwargs -> ~ In "self" (keys kwargs).
Proof.
  intros HF Hin. unfold keys in Hin. apply in_map_iff in Hin as ([k v] & Ek & Hin).
  simpl in Ek. subst k. rewrite Forall_forall in HF.
  apply HF, accepted_entry_recognized in Hin.
  simpl in Hin. intuition discriminate.
Qed.

(** X6: an item that the item schema accepts passes the builder's own
    guards.  It is an object without a key [self], so the call binds its
    arguments; whatever the state, the call raises neither the [UserError]
    of an unsupported key nor a [KeyError] of the geo point; and when it
    returns, the data of the annotation is unset exactly when the item is
    empty. *)
Theorem validated_item_passes_builder_guards item :
  is_valid rank_filter_item_schema item = true ->
  exists kwargs,
    item = VDict kwargs /\
    ~ In "self" (keys kwargs) /\
    (forall st key,
       fst (call_get_annot_proto item st)
         <> Raise (UserError (KwargsKeyNotSupported key)) /\
       fst (call_get_annot_proto item st) <> Raise (PyKeyError key)) /\
    (forall st a,
       fst (call_get_annot_proto item st) = Ok a ->
       (data a = None <-> kwargs = [])).
Proof.
  intros Hv. destruct item as [| | | | | | |kwargs]; try discriminate.
  apply item_valid_iff in Hv as [_ HF].
  pose proof (accepted_keys_bound kwargs HF) as Hself.
  exists kwargs. split; [reflexivity |]. split; [exact Hself |].
  assert (Hraise : forall st e,
            fst (call_get_annot_proto (VDict kwargs) st) = Raise e ->
            (forall key, e <> UserError (KwargsKeyNotSupported key)) /\
            (forall key, e <> PyKeyError key)).
  { intros st e H. rewrite call_get_annot_proto_bound in H by exact Hself.
    apply get_annot_proto_raises in H as (k & v & st1 & Hin & Hr).
    rewrite Forall_forall in HF. pose proof (HF _ Hin) as Hacc.
    apply set_field_raises in Hr
      as [[-> | ->] | [(-> & Hk) | (-> & g & x & -> & Hn & -> & Hx)]].
    - split; intros key; discriminate.
    - split; intros key; discriminate.
    - exfalso. apply Hk, (accepted_entry_recognized k v), Hacc.
    - exfalso. simpl in Hacc.
      destruct Hacc as [[E _] | [[E _] | [[E _] | [[E _] | [[_ Hg] | [E _]]]]]];
        try discriminate.
      destruct Hg as (g' & Eg & _ & [a Ha] & [b Hb] & [n Hn']).
      injection Eg as <-.
      simpl in Hx. destruct Hx as [<- | [<- | [<- | []]]]; congruence. }
  split.
  - intros st key. split; intros H; apply Hraise in H as [H1 H2];
      [eapply H1 | eapply H2]; reflexivity.
  - intros st a H. rewrite call_get_annot_proto_bound in H by exact Hself.
    rewrite get_annot_proto_run in H. destruct kwargs as [|kv kwargs].
    + injection H as <-. simpl. tauto.
    + destruct (fill_data_proto (kv :: kwargs) (put_data Data_empty st))
        as [[[]|e] st']; [| discriminate].
      injection H as <-. simpl. split; discriminate.
Qed.

Lemma validated_item_passes_builder_guards_witness :
  is_valid rank_filter_item_schema (VDict dog_item) = true /\
  exists kwargs,
    VDict dog_item = VDict kwargs /\
    ~ In "self" (keys kwargs) /\
    (forall st key,
       fst (call_get_annot_proto (VDict dog_item) st)
         <> Raise (UserError (KwargsKeyNotSupported key)) /\
       fst (call_get_annot_proto (VDict dog_item) st) <> Raise (PyKeyError key)) /\
    (forall st a,
       fst (call_get_annot_proto (VDict dog_item) st) = Ok a ->
       (data a = None <-> kwargs = [])).
Proof.
  split; [vm_compute; reflexivity |].
  apply (validated_item_passes_builder_guards (VDict dog_item)).
  vm_compute. reflexivity.
Defined.

(** X7: an item with a key other than the six supported ones makes the
    call of the builder raise.  When the item has no key [self] and the
    unsupported key comes first, the exception is the [UserError] that
    names it, raised after the buffer has been reset; when the item has a
    key [self] the call fails with a [TypeError] before the body runs, the
    state untouched. *)
Theorem builder_unsupported_key kwargs key value st :
  In (key, value) kwargs -> ~ In key recognized_keys ->
  (exists e, fst (call_get_annot_proto (VDict kwargs) st) = Raise e) /\
  (forall rest,
     kwargs = (key, value) :: rest -> ~ In "self" (keys kwargs) ->
     call_get_annot_proto (VDict kwargs) st =
       (Raise (UserError (KwargsKeyNotSupported key)), put_data Data_empty st)) /\
  (In "self" (keys kwargs) ->
   call_get_annot_proto (VDict kwargs) st = (Raise PyTypeError, st)).
Proof.
  intros Hin Hk. split; [| split].
  - unfold call_get_annot_proto.
    destruct (mem_str "self" (keys kwargs)); [simpl; eauto |].
    rewrite get_annot_proto_run.
    destruct kwargs as [|kv kwargs]; [contradiction |].
    destruct (fill_unsupported (kv :: kwargs) key value (put_data Data_empty st) Hin Hk)
      as [e He].
    destruct (fill_data_proto (kv :: kwargs) (put_data Data_empty st)) as [[[]|e'] st'];
      simpl in He; [discriminate |].
    exists e'. reflexivity.
  - intros rest -> Hself. rewrite call_get_annot_proto_bound by exact Hself.
    rewrite get_annot_proto_run. simpl fill_data_proto. rewrite bind_run.
    rewrite set_field_unsupported by exact Hk. reflexivity.
  - apply call_get_annot_proto_self.
Qed.

Lemma builder_unsupported_key_witness :
  In ("concept_id", VStr "deer") [("concept_id", VStr "deer")] /\
  ~ In "concept_id" recognized_keys /\
  call_get_annot_proto (VDict [("concept_id", VStr "deer")]) (test_state failing) =
    (Raise (UserError (KwargsKeyNotSupported "concept_id")),
     put_data Data_empty (test_state failing)).
Proof.
  split; [simpl; auto |].
  split; [simpl; intuition discriminate |].
  apply (builder_unsupported_key [("concept_id", VStr "deer")] "concept_id"
           (VStr "deer") (test_state failing)) with (rest := []).
  - simpl. auto.
  - simpl. intuition discriminate.
  - reflexivity.
  - simpl. intuition discriminate.
Defined.

Lemma set_field_geo_run value st :
  set_field "geo_point" value st =
  (lon <- getitem value "longitude" ;;
   lat <- getitem value "latitude" ;;
   lim <- getitem value "geo_limit" ;;
   update_data_proto (with_geo (_get_geo_point_proto lon lat lim))) st.
Proof.
  reflexivity.
Qed.

Lemma getitem_missing g k st :
  dict_get k g = None -> getitem (VDict g) k st = (Raise (PyKeyError k), st).
Proof.
  intros H. unfold getitem. rewrite H. reflexivity.
Qed.

Lemma get_annot_proto_first_raises key value rest st e st' :
  set_field key value (put_data Data_empty st) = (Raise e, st') ->
  fst (_get_annot_proto ((key, value) :: rest) st) = Raise e.
Proof.
  intros H. rewrite get_annot_proto_run. simpl fill_data_proto.
  rewrite bind_run, H. reflexivity.
Qed.

(** X8: a [geo_point] that lacks one of its three keys makes the builder
    raise the [KeyError] of the first one missing, in the order longitude,
    latitude, geo_limit; a [geo_point] that is not a dictionary gives a
    [TypeError]. *)
Theorem builder_geo_point_missing_key rest st :
  (forall g,
     dict_get "longitude" g = None ->
     fst (_get_annot_proto (("geo_point", VDict g) :: rest) st)
       = Raise (PyKeyError "longitude")) /\
  (forall g lon,
     dict_get "longitude" g = Some lon -> dict_get "latitude" g = None ->
     fst (_get_annot_proto (("geo_point", VDict g) :: rest) st)
       = Raise (PyKeyError "latitude")) /\
  (forall g lon lat,
     dict_get "longitude" g = Some lon -> dict_get "latitude" g = Some lat ->
     dict_get "geo_limit" g = None ->
     fst (_get_annot_proto (("geo_point", VDict g) :: rest) st)
       = Raise (PyKeyError "geo_limit")) /\
  (forall v,
     (forall g, v <> VDict g) ->
     fst (_get_annot_proto (("geo_point", v) :: rest) st) = Raise PyTypeError).
Proof.
  repeat split.
  - intros g H1. eapply get_annot_proto_first_raises.
    rewrite set_field_geo_run, bind_run, (getitem_missing _ _ _ H1). reflexivity.
  - intros g lon H1 H2. eapply get_annot_proto_first_raises.
    rewrite set_field_geo_run, bind_run, (getitem_found _ _ _ _ H1).
    rewrite bind_run, (getitem_missing _ _ _ H2). reflexivity.
  - intros g lon lat H1 H2 H3. eapply get_annot_proto_first_raises.
    rewrite set_field_geo_run, bind_run, (getitem_found _ _ _ _ H1).
    rewrite bind_run, (getitem_found _ _ _ _ H2).
    rewrite bind_run, (getitem_missing _ _ _ H3). reflexivity.
  - intros v Hv. eapply get_annot_proto_first_raises.
    rewrite set_field_geo_run, bind_run.
    destruct v; try reflexivity. exfalso. eapply Hv. reflexivity.
Qed.

(** X9: the annotation the builder returns does not depend on what the
    buffer or the session held before the call; when the item is not empty
    the annotation holds the buffer as the call leaves it, and for the empty
    item the state is not touched at all. *)
Theorem builder_result_ignores_previous_buffer kwargs :
  (forall st1 st2, fst (_get_annot_proto kwargs st1) = fst (_get_annot_proto kwargs st2)) /\
  (forall st a st',
     _get_annot_proto kwargs st = (Ok a, st') -> kwargs <> [] ->
     data a = Some (buffer st')) /\
  (forall st, kwargs = [] -> snd (_get_annot_proto kwargs st) = st).
Proof.
  split; [apply get_annot_proto_any_state |]. split.
  - intros st a st' Hrun Hne. rewrite get_annot_proto_run in Hrun.
    destruct kwargs as [|kv kwargs]; [congruence |].
    destruct (fill_data_proto (kv :: kwargs) (put_data Data_empty st)) as [[[]|e] st1];
      [| discriminate].
    injection Hrun as <- <-. reflexivity.
  - intros st ->. reflexivity.
Qed.

(** X10: whatever the item and whether it raises or not, the builder sends
    no request and changes no attribute of the session other than the data
    buffer. *)
Theorem builder_changes_only_buffer kwargs st :
  sent (snd (_get_annot_proto kwargs st)) = sent st /\
  metric_distance (self (snd (_get_annot_proto kwargs st))) = metric_distance (self st) /\
  user_app_id (self (snd (_get_annot_proto kwargs st))) = user_app_id (self st) /\
  default_page_size (self (snd (_get_annot_proto kwargs st))) =
    default_page_size (self st) /\
  rank_filter_schema (self (snd (_get_annot_proto kwargs st))) =
    rank_filter_schema (self st) /\
  STUB_PostAnnotationsSearches (self (snd (_get_annot_proto kwargs st))) =
    STUB_PostAnnotationsSearches (self st).
Proof.
  pose proof (get_annot_proto_fixed kwargs st) as H. unfold fixed_part in H.
  injection H as H1 H2 H3 H4 H5 H6 H7 H8. repeat split; assumption.
Qed.

(** X11: in the annotation built from an item without repeated key, the
    text is the UTF-8 bytes of [text_raw], the metadata is the structure
    made of the dictionary of [metadata], the geo descriptor is the point
    whose coordinates are the single-precision values of longitude and
    latitude, with the limit of kind [withinKilometers] whose value is the
    single-precision value of [geo_limit], and the concepts are those made
    of the elements of [concepts], one for one and in the same order. *)
Theorem builder_fields kwargs st a st' d :
  NoDup (keys kwargs) ->
  _get_annot_proto kwargs st = (Ok a, st') ->
  data a = Some d ->
  (forall v, In ("text_raw", v) kwargs ->
     exists s, v = VStr s /\
       text d = Some (text_from_bytes (VBytes (list_ascii_of_string s)))) /\
  (forall v, In ("metadata", v) kwargs ->
     exists m, v = VDict m /\ metadata d = Some (Struct_update m)) /\
  (forall v, In ("geo_point", v) kwargs ->
     exists g lon lat lim,
       v = VDict g /\
       dict_get "longitude" g = Some lon /\
       dict_get "latitude" g = Some lat /\
       dict_get "geo_limit" g = Some lim /\
       geo d =
         Some {| geo_point :=
                   Some {| longitude := float32_of lon; latitude := float32_of lat |};
                 geo_limit :=
                   Some {| geo_limit_type := "withinKilometers";
                           geo_limit_value := float32_of lim |} |}) /\
  (forall v, In ("concepts", v) kwargs ->
     exists cs, elements_of v = Some (map VDict cs) /\
                concepts d = map Concept_of cs).
Proof.
  intros Hnd Hrun Hd.
  assert (Hsplit : forall key v, In (key, v) kwargs ->
            exists l1 l2, kwargs = l1 ++ (key, v) :: l2 /\
              ~ In key (keys l1) /\ ~ In key (keys l2)).
  { intros key v Hin. apply in_split in Hin as (l1 & l2 & ->).
    exists l1, l2. split; [reflexivity |]. apply NoDup_keys_split with (value := v).
    exact Hnd. }
  assert (Hothers : forall {X : Type} (proj : State -> X) key l,
            ~ In key (keys l) ->
            (forall k, k <> key -> untouched proj k) ->
            forall k, In k (keys l) -> untouched proj k).
  { intros X proj key l Hnot Hun k Hk. apply Hun. intros ->. contradiction. }
  repeat split.
  - intros v Hin. apply Hsplit in Hin as (l1 & l2 & -> & _ & H2).
    destruct (annot_last_write (fun st => text (buffer st)) l1 "text_raw" v l2 st a st')
      as (Ha & st1 & st2 & _ & Hset & Hp); [| exact Hrun |].
    { apply (Hothers _ _ "text_raw"); [exact H2 |]. intros k Hk. untouched_by_others. }
    apply set_field_text in Hset as (s & -> & ->).
    exists s. split; [reflexivity |].
    rewrite Ha in Hd. injection Hd as <-. exact Hp.
  - intros v Hin. apply Hsplit in Hin as (l1 & l2 & -> & _ & H2).
    destruct (annot_last_write (fun st => metadata (buffer st)) l1 "metadata" v l2 st a st')
      as (Ha & st1 & st2 & _ & Hset & Hp); [| exact Hrun |].
    { apply (Hothers _ _ "metadata"); [exact H2 |]. intros k Hk. untouched_by_others. }
    apply set_field_metadata in Hset as (m & -> & ->).
    exists m. split; [reflexivity |].
    rewrite Ha in Hd. injection Hd as <-. exact Hp.
  - intros v Hin. apply Hsplit in Hin as (l1 & l2 & -> & _ & H2).
    destruct (annot_last_write (fun st => geo (buffer st)) l1 "geo_point" v l2 st a st')
      as (Ha & st1 & st2 & _ & Hset & Hp); [| exact Hrun |].
    { apply (Hothers _ _ "geo_point"); [exact H2 |]. intros k Hk. untouched_by_others. }
    apply set_field_geo in Hset as (g & lon & lat & lim & -> & Hlon & Hlat & Hlim & ->).
    exists g, lon, lat, lim. repeat split; try assumption.
    rewrite Ha in Hd. injection Hd as <-. exact Hp.
  - intros v Hin. apply Hsplit in Hin as (l1 & l2 & -> & H1 & H2).
    destruct (annot_last_write (fun st => concepts (buffer st)) l1 "concepts" v l2 st a st')
      as (Ha & st1 & st2 & Hfill & Hset & Hp); [| exact Hrun |].
    { apply (Hothers _ _ "concepts"); [exact H2 |]. intros k Hk. untouched_by_others. }
    apply set_field_concepts in Hset as (cs & Hel & Hc).
    exists cs. split; [exact Hel |].
    rewrite Ha in Hd. injection Hd as <-. rewrite Hp, Hc.
    pose proof (fill_untouched (fun st => concepts (buffer st)) l1
                  (put_data Data_empty st)) as Hl1.
    rewrite Hfill in Hl1. simpl in Hl1. rewrite Hl1; [reflexivity |].
    apply (Hothers _ _ "concepts"); [exact H1 |]. intros k Hk. untouched_by_others.
Qed.

Lemma builder_fields_witness :
  exists a st' d,
    NoDup (keys dog_item) /\
    _get_annot_proto dog_item (test_state failing) = (Ok a, st') /\
    data a = Some d /\
    exists cs, elements_of (VList [dog_concept]) = Some (map VDict cs) /\
               concepts d = map Concept_of cs.
Proof.
  eexists _, _, _.
  assert (Hnd : NoDup (keys dog_item)).
  { repeat constructor; simpl; intuition discriminate. }
  split; [exact Hnd |]. split; [reflexivity |]. split; [reflexivity |].
  eapply (builder_fields dog_item (test_state failing)).
  - exact Hnd.
  - reflexivity.
  - reflexivity.
  - simpl. auto.
Defined.

(** X12: in the annotation built from an item, a field whose key the item
    does not have is unset: no text without [text_raw], no metadata without
    [metadata], no geo descriptor without [geo_point], no concept without
    [concepts], no image without [image_bytes] and [image_url]. *)
Theorem builder_absent_keys_unset kwargs st a st' d :
  _get_annot_proto kwargs st = (Ok a, st') ->
  data a = Some d ->
  (~ In "text_raw" (keys kwargs) -> text d = None) /\
  (~ In "metadata" (keys kwargs) -> metadata d = None) /\
  (~ In "geo_point" (keys kwargs) -> geo d = None) /\
  (~ In "concepts" (keys kwargs) -> concepts d = []) /\
  (~ In "image_bytes" (keys kwargs) -> ~ In "image_url" (keys kwargs) ->
   image d = None).
Proof.
  intros Hrun Hd. rewrite get_annot_proto_run in Hrun.
  destruct kwargs as [|kv kwargs].
  { injection Hrun as <- <-. discriminate. }
  destruct (fill_data_proto (kv :: kwargs) (put_data Data_empty st))
    as [[[]|e] st1] eqn:Efill; [| discriminate].
  injection Hrun as <- <-. simpl in Hd. injection Hd as <-.
  assert (Hkeep : forall {X : Type} (proj : State -> X),
            (forall k, In k (keys (kv :: kwargs)) -> untouched proj k) ->
            proj st1 = proj (put_data Data_empty st)).
  { intros X proj Hun.
    pose proof (fill_untouched proj (kv :: kwargs) (put_data Data_empty st) Hun) as H.
    rewrite Efill in H. exact H. }
  repeat split.
  - intros Hno. apply (Hkeep _ (fun st => text (buffer st))).
    intros k Hk. assert (k <> "text_raw") by (intros ->; contradiction).
    untouched_by_others.
  - intros Hno. apply (Hkeep _ (fun st => metadata (buffer st))).
    intros k Hk. assert (k <> "metadata") by (intros ->; contradiction).
    untouched_by_others.
  - intros Hno. apply (Hkeep _ (fun st => geo (buffer st))).
    intros k Hk. assert (k <> "geo_point") by (intros ->; contradiction).
    untouched_by_others.
  - intros Hno. apply (Hkeep _ (fun st => concepts (buffer st))).
    intros k Hk. assert (k <> "concepts") by (intros ->; contradiction).
    untouched_by_others.
  - intros Hno1 Hno2. apply (Hkeep _ (fun st => image (buffer st))).
    intros k Hk. assert (k <> "image_bytes") by (intros ->; contradiction).
    assert (k <> "image_url") by (intros ->; contradiction).
    untouched_by_others.
Qed.

Lemma builder_absent_keys_unset_witness :
  exists a st' d,
    _get_annot_proto dog_item (test_state failing) = (Ok a, st') /\
    data a = Some d /\
    (~ In "geo_point" (keys dog_item) -> geo d = None).
Proof.
  eexists _, _, _. split; [reflexivity |]. split; [reflexivity |].
  eapply (builder_absent_keys_unset dog_item (test_state failing)); reflexivity.
Defined.

(** X13: [image_bytes] and [image_url] write the same field of the buffer:
    the image of the annotation is that of the last of these keys in the
    order of the item. *)
Theorem builder_last_image_wins l1 key value l2 st a st' d :
  key = "image_bytes" \/ key = "image_url" ->
  ~ In "image_bytes" (keys l2) -> ~ In "image_url" (keys l2) ->
  _get_annot_proto (l1 ++ (key, value) :: l2) st = (Ok a, st') ->
  data a = Some d ->
  image d = Some (image_of key value).
Proof.
  intros Hkey Hb Hu Hrun Hd.
  destruct (annot_last_write (fun st => image (buffer st)) l1 key value l2 st a st')
    as (Ha & st1 & st2 & _ & Hset & Hp); [| exact Hrun |].
  { intros k Hk. assert (k <> "image_bytes") by (intros ->; contradiction).
    assert (k <> "image_url") by (intros ->; contradiction).
    untouched_by_others. }
  rewrite set_field_image in Hset by exact Hkey. injection Hset as <-.
  rewrite Ha in Hd. injection Hd as <-. exact Hp.
Qed.

Lemma builder_last_image_wins_witness :
  exists a st' d,
    _get_annot_proto two_images (test_state failing) = (Ok a, st') /\
    data a = Some d /\
    image d = Some (image_from_url (VStr "https://samples.clarifai.com/dog.tiff")).
Proof.
  eexists _, _, _. split; [reflexivity |]. split; [reflexivity |].
  eapply (builder_last_image_wins [("image_bytes", VBytes [])] "image_url"
            (VStr "https://samples.clarifai.com/dog.tiff") [] (test_state failing)).
  - right. reflexivity.
  - simpl. tauto.
  - simpl. tauto.
  - reflexivity.
  - reflexivity.
Defined.

(** ** Query: properties *)

Lemma call_get_annot_proto_fixed item st :
  fixed_part (snd (call_get_annot_proto item st)) = fixed_part st.
Proof.
  unfold call_get_annot_proto. destruct item; try reflexivity.
  destruct (mem_str "self" (keys d)); [reflexivity |].
  apply get_annot_proto_fixed.
Qed.

Lemma call_get_annot_proto_any_state item st1 st2 :
  fst (call_get_annot_proto item st1) = fst (call_get_annot_proto item st2).
Proof.
  unfold call_get_annot_proto. destruct item; try reflexivity.
  destruct (mem_str "self" (keys d)); [reflexivity |].
  apply get_annot_proto_any_state.
Qed.

Lemma get_annot_protos_fixed : forall items st,
  fixed_part (snd (get_annot_protos items st)) = fixed_part st.
Proof.
  induction items as [|item items IH]; intros st; [reflexivity |].
  simpl. rewrite bind_run.
  pose proof (call_get_annot_proto_fixed item st) as H1.
  destruct (call_get_annot_proto item st) as [[a|e] st1]; simpl in H1; [| exact H1].
  rewrite bind_run. specialize (IH st1).
  destruct (get_annot_protos items st1) as [[annots|e] st2]; simpl in IH |- *;
    congruence.
Qed.

(** When the comprehension returns, it holds one annotation per item, in
    order, each the one the builder makes for its item. *)
Lemma get_annot_protos_built : forall items st annots st',
  get_annot_protos items st = (Ok annots, st') -> Forall2 built items annots.
Proof.
  induction items as [|item items IH]; intros st annots st' H.
  - injection H as <- <-. constructor.
  - simpl in H. rewrite bind_run in H.
    destruct (call_get_annot_proto item st) as [[a|e] st1] eqn:E1; [| discriminate].
    rewrite bind_run in H.
    destruct (get_annot_protos items st1) as [[rest|e] st2] eqn:E2; [| discriminate].
    injection H as <- <-. constructor; [| eapply IH, E2].
    intros st0. rewrite (call_get_annot_proto_any_state item st0 st), E1.
    reflexivity.
Qed.

Lemma query_refused ranks filters st err :
  validate_rank_filter (self st) ranks filters = Raise err ->
  query ranks filters st = (Raise (UserError (InvalidRankOrFilterInput err)), st).
Proof.
  intros H. unfold query. rewrite bind_run. simpl. rewrite H. reflexivity.
Qed.

Lemma query_passed ranks filters st u :
  validate_rank_filter (self st) ranks filters = Ok u ->
  query ranks filters st =
  (rank_items <- iter_list ranks ;;
   rank_annot_proto <- get_annot_protos rank_items ;;
   filter_items <- iter_list filters ;;
   filters_annot_proto <- get_annot_protos filter_items ;;
   s <- get_self ;;
   list_all_pages_generator (STUB_PostAnnotationsSearches s)
     PostAnnotationsSearchesRequest
     {| rd_user_app_id := user_app_id s;
        rd_searches :=
          [ {| query_ := {| ranks := map Build_Rank rank_annot_proto;
                            filters := map Build_Filter filters_annot_proto |};
               metric := metric_distance s |} ];
        rd_pagination := None |}) st.
Proof.
  intros H. unfold query. rewrite bind_run. simpl. rewrite H. reflexivity.
Qed.

Lemma iter_list_run x st :
  iter_list x st =
  match x with
  | VList l => (Ok l, st)
  | _ => (Raise PyTypeError, st)
  end.
Proof.
  destruct x; reflexivity.
Qed.

(** What [query] returns when it returns: the generator over the request
    data composed from the annotations, and a state that differs from the
    one before in the buffer at most. *)
Lemma query_returns ranks filters st g st' :
  query ranks filters st = (Ok g, st') ->
  fixed_part st' = fixed_part st /\
  (exists u, validate_rank_filter (self st) ranks filters = Ok u) /\
  exists rank_items filter_items ras fas,
    ranks = VList rank_items /\ filters = VList filter_items /\
    Forall2 built rank_items ras /\
    Forall2 built filter_items fas /\
    g = GenCreated (STUB_PostAnnotationsSearches (self st))
          PostAnnotationsSearchesRequest
          {| rd_user_app_id := user_app_id (self st);
             rd_searches :=
               [ {| query_ := {| ranks := map Build_Rank ras;
                                 filters := map Build_Filter fas |};
                    metric := metric_distance (self st) |} ];
             rd_pagination := None |}.
Proof.
  intros Hq.
  destruct (validate_rank_filter (self st) ranks filters) as [u|err] eqn:Ev.
  2: { rewrite (query_refused _ _ _ _ Ev) in Hq. discriminate. }
  rewrite (query_passed _ _ _ _ Ev) in Hq.
  rewrite bind_run, iter_list_run in Hq.
  destruct ranks as [| | | | | |rank_items|]; try discriminate.
  rewrite bind_run in Hq.
  pose proof (get_annot_protos_fixed rank_items st) as F1.
  destruct (get_annot_protos rank_items st) as [[ras|e] st1] eqn:E1; [| discriminate].
  rewrite bind_run, iter_list_run in Hq.
  destruct filters as [| | | | | |filter_items|]; try discriminate.
  rewrite bind_run in Hq.
  pose proof (get_annot_protos_fixed filter_items st1) as F2.
  destruct (get_annot_protos filter_items st1) as [[fas|e] st2] eqn:E2; [| discriminate].
  simpl in F1, F2.
  unfold bind, get_self, list_all_pages_generator, ret in Hq.
  injection Hq as <- <-.
  assert (F : fixed_part st2 = fixed_part st) by congruence.
  split; [exact F |]. split; [eauto |].
  exists rank_items, filter_items, ras, fas.
  split; [reflexivity |]. split; [reflexivity |].
  split; [eapply get_annot_protos_built, E1 |].
  split; [eapply get_annot_protos_built, E2 |].
  unfold fixed_part in F. injection F as _ _ _ Hm _ Hu Hs _.
  rewrite Hm, Hu, Hs. reflexivity.
Qed.

(** X14: [query] sends no request, whatever its arguments and whether it
    raises or returns, and it changes no attribute of the session other
    than the data buffer: the requests start when the generator is
    iterated. *)
Theorem query_sends_nothing ranks filters st :
  sent (snd (query ranks filters st)) = sent st /\
  metric_distance (self (snd (query ranks filters st))) = metric_distance (self st) /\
  user_app_id (self (snd (query ranks filters st))) = user_app_id (self st) /\
  default_page_size (self (snd (query ranks filters st))) =
    default_page_size (self st) /\
  rank_filter_schema (self (snd (query ranks filters st))) =
    rank_filter_schema (self st).
Proof.
  assert (F : fixed_part (snd (query ranks filters st)) = fixed_part st).
  { destruct (validate_rank_filter (self st) ranks filters) as [u|err] eqn:Ev.
    2: { rewrite (query_refused _ _ _ _ Ev). reflexivity. }
    rewrite (query_passed _ _ _ _ Ev).
    rewrite bind_run, iter_list_run.
    destruct ranks as [| | | | | |rank_items|]; try reflexivity.
    rewrite bind_run.
    pose proof (get_annot_protos_fixed rank_items st) as F1.
    destruct (get_annot_protos rank_items st) as [[ras|e] st1]; simpl in F1;
      [| exact F1].
    rewrite bind_run, iter_list_run.
    destruct filters as [| | | | | |filter_items|]; try exact F1.
    rewrite bind_run.
    pose proof (get_annot_protos_fixed filter_items st1) as F2.
    destruct (get_annot_protos filter_items st1) as [[fas|e] st2]; simpl in F2;
      simpl; congruence. }
  unfold fixed_part in F. injection F as H1 H2 H3 H4 H5 H6 H7 H8.
  repeat split; assumption.
Qed.



(** The ranks are validated before the filters: when the schema
    refuses the ranks, the [UserError] holds the error of the ranks whatever
    the filters are; it holds the error of the filters only when the ranks
    pass. *)
Theorem query_ranks_checked_first ranks filters st :
  (forall err,
     rank_filter_schema (self st) ranks = Raise err ->
     query ranks filters st = (Raise (UserError (InvalidRankOrFilterInput err)), st)) /\
  (forall v err,
     rank_filter_schema (self st) ranks = Ok v ->
     rank_filter_schema (self st) filters = Raise err ->
     query ranks filters st = (Raise (UserError (InvalidRankOrFilterInput err)), st)).
Proof.
  split.
  - intros err H. apply query_refused. unfold validate_rank_filter. rewrite H.
    reflexivity.
  - intros v err H1 H2. apply query_refused. unfold validate_rank_filter.
    rewrite H1, H2. reflexivity.
Qed.

(** ** The generator: properties *)

(** X16: when the page and the page size of the next request fit the
    unsigned 32-bit fields of the pagination, a call of [next] sends
    exactly one request when the generator is not finished and none when it
    is, and it does not change the session; after a call that does not
    yield, the generator is finished, and a finished generator answers every
    later call with [StopIteration] without touching the state. *)
Theorem next_one_request_at_most g st :
  sendable g st ->
  self (snd (next g st)) = self st /\
  match pending_request g st with
  | Some (_, request) => sent (snd (next g st)) = sent st ++ [request]
  | None => next g st = (StopIteration, GenFinished, st)
  end /\
  (forall signal g' st',
     next g st = (signal, g', st') ->
     (forall response, signal <> Yield response) ->
     g' = GenFinished /\
     forall fuel st'', iterate (S fuel) g' st'' = ([], Exhausted, st'')).
Proof.
  assert (Hdone : forall (x : Signal) (st1 : State) signal g' st',
            (x, GenFinished, st1) = (signal, g', st') ->
            g' = GenFinished /\
            forall fuel st'', iterate (S fuel) g' st'' = ([], Exhausted, st'')).
  { intros x st1 signal g' st' H. injection H as _ <- _.
    split; [reflexivity | intros; reflexivity]. }
  intros _.
  destruct (pending_request g st) as [[e request]|] eqn:Ep.
  - rewrite (next_pending _ _ _ _ Ep). cbv zeta.
    destruct (e (sent st) request) as [r|x].
    + destruct (negb (Z.eqb (status_code r) SUCCESS)).
      { split; [reflexivity |]. split; [reflexivity |].
        intros signal g' st' H _. eapply Hdone, H. }
      destruct (negb (has_hits r)).
      { split; [reflexivity |]. split; [reflexivity |].
        intros signal g' st' H _. eapply Hdone, H. }
      destruct g as [e0 pm rd | e0 pm rd pg p |]; try discriminate;
        (split; [reflexivity |]; split; [reflexivity |];
         intros signal g' st' H Hny; injection H as <- <- <-;
         exfalso; eapply Hny; reflexivity).
    + split; [reflexivity |]. split; [reflexivity |].
      intros signal g' st' H _. eapply Hdone, H.
  - destruct g; try discriminate.
    split; [reflexivity |]. split; [reflexivity |].
    intros signal g' st' H _. eapply Hdone, H.
Qed.

Lemma next_one_request_at_most_witness :
  sendable (GenCreated two_pages PostAnnotationsSearchesRequest no_searches)
    (test_state two_pages) /\
  sent (snd (next (GenCreated two_pages PostAnnotationsSearchesRequest no_searches)
               (test_state two_pages)))
  = [page_request PostAnnotationsSearchesRequest no_searches 1 1].
Proof.
  assert (Hs : sendable (GenCreated two_pages PostAnnotationsSearchesRequest no_searches)
                 (test_state two_pages)).
  { split; [discriminate | reflexivity]. }
  split; [exact Hs |].
  apply (next_one_request_at_most
           (GenCreated two_pages PostAnnotationsSearchesRequest no_searches)
           (test_state two_pages) Hs).
Defined.

(** X17: a failure of the transport is not caught: the call of [next] whose
    request fails raises the exception of the transport itself, after that
    one request, and the loop over the generator ends with it. *)
Theorem transport_error_propagates g st endpoint request e :
  pending_request g st = Some (endpoint, request) ->
  endpoint (sent st) request = Raise e ->
  next g st =
    (Raised e, GenFinished, {| self := self st; sent := sent st ++ [request] |}) /\
  forall fuel,
    iterate (S fuel) g st =
      ([], Failed e, {| self := self st; sent := sent st ++ [request] |}).
Proof.
  intros Hp He.
  assert (Hn : next g st =
            (Raised e, GenFinished, {| self := self st; sent := sent st ++ [request] |})).
  { rewrite (next_pending _ _ _ _ Hp). cbv zeta. rewrite He. reflexivity. }
  split; [exact Hn |]. intros fuel. rewrite iterate_S, Hn. reflexivity.
Qed.

Lemma transport_error_propagates_witness :
  pending_request (GenCreated unreachable PostAnnotationsSearchesRequest no_searches)
    (test_state unreachable)
  = Some (unreachable, page_request PostAnnotationsSearchesRequest no_searches 1 1) /\
  iterate 4 (GenCreated unreachable PostAnnotationsSearchesRequest no_searches)
    (test_state unreachable)
  = ([], Failed (TransportError 14),
     {| self := test_session unreachable;
        sent := [page_request PostAnnotationsSearchesRequest no_searches 1 1] |}).
Proof.
  split; [reflexivity |].
  apply (transport_error_propagates
           (GenCreated unreachable PostAnnotationsSearchesRequest no_searches)
           (test_state unreachable) unreachable
           (page_request PostAnnotationsSearchesRequest no_searches 1 1)
           (TransportError 14)); reflexivity.
Defined.

(** X18: a successful response whose list of hits is empty ends the
    sequence: when it is the response to the first request, the loop yields
    no page and has sent that one request. *)
Theorem empty_result_one_request g st endpoint request response :
  pending_request g st = Some (endpoint, request) ->
  endpoint (sent st) request = Ok response ->
  status_code response = SUCCESS ->
  hits response = [] ->
  forall fuel,
    iterate (S fuel) g st =
      ([], Exhausted, {| self := self st; sent := sent st ++ [request] |}).
Proof.
  intros Hp He Hs Hh fuel.
  rewrite iterate_S, (next_pending _ _ _ _ Hp). cbv zeta.
  rewrite He, Hs, Z.eqb_refl. unfold has_hits, MessageToDict_keys. rewrite Hh.
  reflexivity.
Qed.

Lemma empty_result_one_request_witness :
  pending_request (GenCreated no_results PostAnnotationsSearchesRequest no_searches)
    (test_state no_results)
  = Some (no_results, page_request PostAnnotationsSearchesRequest no_searches 1 1) /\
  iterate 4 (GenCreated no_results PostAnnotationsSearchesRequest no_searches)
    (test_state no_results)
  = ([], Exhausted,
     {| self := test_session no_results;
        sent := [page_request PostAnnotationsSearchesRequest no_searches 1 1] |}).
Proof.
  split; [reflexivity |].
  apply (empty_result_one_request
           (GenCreated no_results PostAnnotationsSearchesRequest no_searches)
           (test_state no_results) no_results
           (page_request PostAnnotationsSearchesRequest no_searches 1 1)
           empty_page); reflexivity.
Defined.



(** ** The validator: properties *)

Lemma matches_lit l s : matches (Lit l) s <-> s = l.
Proof.
  revert s. induction l as [|c l IH]; intros s; simpl.
  - split; [intros H; inversion H; reflexivity | intros ->; constructor].
  - split.
    + intros H. apply matches_cat_inv in H as (s1 & s2 & -> & H1 & H2).
      apply matches_chr_inv in H1 as (c' & -> & Hc). apply Ascii.eqb_eq in Hc.
      apply IH in H2. subst. reflexivity.
    + intros ->. apply (MCat _ _ [c] l).
      * constructor. apply Ascii.eqb_refl.
      * apply IH. reflexivity.
Qed.

Lemma prefix_of_append p r : String.prefix p (p ++ r)%string = true.
Proof.
  induction p as [|a p IH]; simpl.
  - destruct r; reflexivity.
  - destruct (ascii_dec a a); [exact IH | congruence].
Qed.

Lemma url_search_only_prefix s :
  search url_pattern s = true ->
  String.prefix "http://" s = true \/ String.prefix "https://" s = true.
Proof.
  unfold search. simpl anchored_start. cbv iota.
  intros H. apply match_here_spec in H as (s1 & s2 & E & Hm & _).
  assert (Es : s = (string_of_list_ascii s1 ++ string_of_list_ascii s2)%string).
  { rewrite <- (string_of_list_ascii_of_string s), E.
    clear. induction s1 as [|c s1 IH]; simpl; [reflexivity | rewrite IH; reflexivity]. }
  unfold url_pattern, url_body in Hm. simpl body in Hm.
  apply matches_cat_inv in Hm as (h & t & -> & Hh & Ht).
  apply (matches_lit (list_ascii_of_string "http")) in Hh. subst h.
  apply matches_cat_inv in Ht as (o & c & -> & Ho & Hc).
  apply (matches_lit (list_ascii_of_string "://")) in Hc. subst c.
  apply matches_alt_inv in Ho as [Ho | Ho].
  - apply matches_chr_inv in Ho as (x & -> & Hx). apply Ascii.eqb_eq in Hx. subst x.
    right. clear E. subst s. apply (prefix_of_append "https://").
  - assert (o = []) by (inversion Ho; reflexivity). subst o.
    left. clear E. subst s. apply (prefix_of_append "http://").
Qed.

(** X1: the schema accepts exactly the lists of dictionaries whose keys are
    distinct and whose every entry is one of: [image_url] with a string on
    which the URL pattern matches, [text_raw] with a non-empty string,
    [metadata] with a dictionary, [image_bytes] with bytes, [geo_point]
    with the three coordinates of the right types, [concepts] with a list of
    accepted concepts.  Anything that is not a list, and any element that
    is not a dictionary, is refused. *)
Theorem get_schema_accepts v :
  is_valid get_schema v = true <->
  exists items, v = VList items /\
    Forall (fun item => exists d, item = VDict d /\ NoDup (keys d) /\
                                  Forall accepted_entry d) items.
Proof.
  rewrite get_schema_valid_iff. split.
  - intros (items & -> & HF). exists items. split; [reflexivity |].
    eapply Forall_impl; [| exact HF]. intros item Hi.
    destruct item as [| | | | | | |d]; try discriminate.
    exists d. split; [reflexivity |]. apply item_valid_iff, Hi.
  - intros (items & -> & HF). exists items. split; [reflexivity |].
    eapply Forall_impl; [| exact HF]. intros item (d & -> & Hd).
    apply item_valid_iff, Hd.
Qed.

(** X2: under [image_url] the schema accepts exactly the strings that begin
    with [http://] or with [https://], in lower case; what follows the
    prefix is not examined. *)
Theorem image_url_accepted v :
  is_valid get_schema (VList [VDict [("image_url", v)]]) = true <->
  exists s, v = VStr s /\
    (String.prefix "http://" s = true \/ String.prefix "https://" s = true).
Proof.
  rewrite get_schema_valid_iff. split.
  - intros (items & E & HF). injection E as <-.
    inversion HF as [|? ? Hi _]; subst.
    apply item_valid_iff in Hi as [_ Hd].
    inversion Hd as [|? ? Ha _]; subst. simpl in Ha.
    destruct Ha as [[_ (s & -> & Hs)] | [[H _] | [[H _] | [[H _] | [[H _] | [H _]]]]]];
      try discriminate.
    exists s. split; [reflexivity |]. apply url_search_only_prefix, Hs.
  - intros (s & -> & Hs). eexists. split; [reflexivity |].
    constructor; [| constructor]. apply item_valid_iff. split.
    + constructor; [simpl; tauto | constructor].
    + constructor; [| constructor]. simpl. left. split; [reflexivity |].
      exists s. split; [reflexivity |]. apply url_search_prefix, Hs.
Qed.

(** X3: the concept schema accepts a [name] exactly when it is a string made
    of non-empty runs of letters and digits joined by single dashes or
    underscores, or such a string followed by one newline. *)
Theorem concept_name_accepted_iff v :
  is_valid concept_schema (VDict [("name", v)]) = true <->
  exists s, v = VStr s /\
    (spec_name (list_ascii_of_string s) \/
     exists front, list_ascii_of_string s = front ++ [newline] /\ spec_name front).
Proof.
  rewrite concept_valid_iff. split.
  - intros [_ HF]. inversion HF as [|? ? Ha _]; subst. simpl in Ha.
    destruct Ha as [[H _] | [[H _] | [[H _] | [_ (s & -> & _ & Hs)]]]];
      try discriminate.
    exists s. split; [reflexivity |]. apply name_search_spec, Hs.
  - intros (s & -> & Hs). split.
    + constructor; [simpl; tauto | constructor].
    + constructor; [| constructor]. simpl. do 3 right. split; [reflexivity |].
      exists s. split; [reflexivity |]. split; [| apply name_search_spec, Hs].
      intros ->. simpl in Hs. destruct Hs as [Hs | (front & E & _)].
      * apply spec_name_first in Hs as (c & rest & E & _). discriminate.
      * destruct front; discriminate.
Qed.

(** X4: the check on an element of a [concepts] list never raises; it holds
    exactly for the non-empty dictionaries with distinct keys among [value]
    (the integer 0 or 1), [id], [language] (non-empty strings) and [name] (a
    non-empty string that the name pattern matches).  The concept schema
    alone accepts the empty dictionary: it is the length test that refuses
    it. *)
Theorem concept_element_check item :
  (concept_item_ok item = Some true <->
   exists d, item = VDict d /\ d <> [] /\ NoDup (keys d) /\
             Forall accepted_concept_field d) /\
  (concept_item_ok item = Some true \/ concept_item_ok item = Some false) /\
  is_valid concept_schema (VDict []) = true /\
  concept_item_ok (VDict []) = Some false.
Proof.
  split; [| split; [| split; reflexivity]].
  - rewrite concept_item_ok_spec. unfold concept_element_ok. split.
    + intros (d & -> & Hne & Hv). exists d. split; [reflexivity |].
      split; [exact Hne |]. apply concept_valid_iff, Hv.
    + intros (d & -> & Hne & Hd). exists d. split; [reflexivity |].
      split; [exact Hne |]. apply concept_valid_iff, Hd.
  - unfold concept_item_ok.
    destruct (is_valid concept_schema item) eqn:Ev; [| auto].
    destruct item; try discriminate. simpl. destruct d; simpl; auto.
Qed.

(** X5: validation does not depend on the order of the keys of an item nor
    on the order of the items of the list. *)
Theorem validation_ignores_order :
  (forall d d', Permutation d d' ->
     is_valid rank_filter_item_schema (VDict d) =
     is_valid rank_filter_item_schema (VDict d')) /\
  (forall items items', Permutation items items' ->
     is_valid get_schema (VList items) = is_valid get_schema (VList items')).
Proof.
  assert (Hbool : forall a b : bool, (a = true <-> b = true) -> a = b).
  { intros [] [] [H1 H2]; auto; symmetry; auto. }
  split.
  - intros d d' Hp. apply Hbool. rewrite !item_valid_iff.
    assert (Hk : Permutation (keys d) (keys d')) by (apply Permutation_map, Hp).
    split; intros [Hnd HF]; split.
    + eapply Permutation_NoDup; eauto.
    + eapply Permutation_Forall; eauto.
    + eapply Permutation_NoDup; [apply Permutation_sym |]; eauto.
    + eapply Permutation_Forall; [apply Permutation_sym |]; eauto.
  - intros items items' Hp. apply Hbool. rewrite !get_schema_valid_iff.
    split; intros (l & E & HF); injection E as <-; eexists; (split; [reflexivity |]).
    + eapply Permutation_Forall; eauto.
    + eapply Permutation_Forall; [apply Permutation_sym |]; eauto.
Qed.

(** X20: the settings given when the session is constructed reach every
    request of its queries, for a [top_k] that fits the unsigned 32-bit
    field of the pagination: the generator that [query] returns is over
    request data whose identity is the pair of the user and the application
    and whose one search has the distance that stands for the metric; every
    request sent while it is iterated carries them, the page size is
    [top_k], and the page numbers count from 1. *)
Theorem session_settings_reach_requests
    stub uid aid top_k metric_name s log ranks filters g st1 fuel pages out st2 :
  uint32 top_k ->
  (Z.of_nat fuel < 2 ^ 32)%Z ->
  Search_init stub uid aid top_k metric_name = Ok s ->
  query ranks filters {| self := s; sent := log |} = (Ok g, st1) ->
  iterate fuel g st1 = (pages, out, st2) ->
  exists q,
    g = GenCreated stub PostAnnotationsSearchesRequest
          {| rd_user_app_id := {| user_id := uid; app_id := aid |};
             rd_searches :=
               [ {| query_ := q;
                    metric := if String.eqb metric_name "cosine"
                              then "COSINE_DISTANCE" else "EUCLIDEAN_DISTANCE" |} ];
             rd_pagination := None |} /\
    sent st2 =
      log ++
      map (fun i =>
             {| req_user_app_id := {| user_id := uid; app_id := aid |};
                req_searches :=
                  [ {| query_ := q;
                       metric := if String.eqb metric_name "cosine"
                                 then "COSINE_DISTANCE" else "EUCLIDEAN_DISTANCE" |} ];
                req_pagination :=
                  Some {| page := 1 + Z.of_nat i; per_page := top_k |} |})
          (seq 0 (List.length pages +
                  match out with Unfinished _ => 0 | _ => 1 end)).
Proof.
  intros _ _ Hinit Hq Hrun.
  assert (Hs : s = {| self_user_id := uid; self_app_id := aid;
                      metric_distance :=
                        if String.eqb metric_name "cosine"
                        then "COSINE_DISTANCE" else "EUCLIDEAN_DISTANCE";
                      data_proto := Data_empty;
                      rank_filter_schema := get_schema;
                      user_app_id := {| user_id := uid; app_id := aid |};
                      STUB_PostAnnotationsSearches := stub;
                      default_page_size := top_k |}).
  { unfold Search_init, mem_str in Hinit. cbn [existsb lookup] in Hinit.
    destruct (String.eqb metric_name "cosine").
    - simpl in Hinit. injection Hinit as <-. reflexivity.
    - destruct (String.eqb metric_name "euclidean"); simpl in Hinit;
        [| discriminate].
      injection Hinit as <-. reflexivity. }
  destruct (query_returns _ _ _ _ _ Hq)
    as (F & _ & rank_items & filter_items & ras & fas & _ & _ & _ & _ & ->).
  unfold fixed_part in F. injection F as Hsent _ _ _ _ _ _ Hsize.
  simpl in Hsent, Hsize.
  exists {| ranks := map Build_Rank ras; filters := map Build_Filter fas |}.
  split; [subst s; reflexivity |].
  destruct fuel as [|fuel].
  - simpl in Hrun. injection Hrun as <- <- <-. simpl. rewrite app_nil_r. exact Hsent.
  - rewrite iterate_created in Hrun.
    apply (iterate_suspended _ _ _ (default_page_size (self st1))) in Hrun
      as (_ & Hsnt & _); [| reflexivity].
    rewrite Hsnt, Hsent, Hsize. subst s. reflexivity.
Qed.

Lemma session_settings_reach_requests_witness :
  exists s q,
    uint32 1 /\
    Search_init two_pages "user" "app" 1 "euclidean" = Ok s /\
    query default_items default_items {| self := s; sent := [] |} =
      (Ok (GenCreated two_pages PostAnnotationsSearchesRequest default_request_data),
       {| self := s; sent := [] |}) /\
    [search_request default_request_data 1 1;
     search_request default_request_data 1 2;
     search_request default_request_data 1 3] =
      [] ++
      map (fun i =>
             {| req_user_app_id := {| user_id := "user"; app_id := "app" |};
                req_searches :=
                  [ {| query_ := q;
                       metric := if String.eqb "euclidean" "cosine"
                                 then "COSINE_DISTANCE" else "EUCLIDEAN_DISTANCE" |} ];
                req_pagination :=
                  Some {| page := 1 + Z.of_nat i; per_page := 1 |} |})
          (seq 0 (2 + 1)).
Proof.
  assert (Hk : uint32 1) by (split; [discriminate | reflexivity]).
  assert (Hfuel : (Z.of_nat 10 < 2 ^ 32)%Z) by reflexivity.
  destruct (session_settings_reach_requests two_pages "user" "app" 1 "euclidean"
              (test_session two_pages) [] default_items default_items
              (GenCreated two_pages PostAnnotationsSearchesRequest default_request_data)
              (test_state two_pages) 10 [hit_page; hit_page] Exhausted
              {| self := test_session two_pages;
                 sent := [search_request default_request_data 1 1;
                          search_request default_request_data 1 2;
                          search_request default_request_data 1 3] |}
              Hk Hfuel eq_refl eq_refl eq_refl) as (q & _ & Hq).
  exists (test_session two_pages), q.
  split; [exact Hk |]. split; [reflexivity |]. split; [reflexivity |]. exact Hq.
Defined.
